(** * A DNS wire-format codec: shallow embedding and verification

    The Go package [server] decodes DNS headers and questions from a UDP
    datagram and encodes names back to the wire.  This development embeds
    [ParseDomainName], [EncodeDomainName], [ParseQuestion], [ParseRequest],
    [Request.Marshal] and the body of [DNSServer.Listen] and states the
    properties of the specification over them.

    Conventions:
    - a Go [byte] is a [Byte.byte]; a Go [string] is a [string] (a sequence
      of 8-bit characters), the conversions [string(b)] and [[]byte(s)] are
      [string_of_list_byte] and [list_byte_of_string];
    - a Go [int] is a [Z]: every arithmetic operation of the code follows a
      successful bounds check against a buffer, so no 64-bit wrap-around
      is reachable; a [uint16] is a [Z] with its reduction modulo 2^16
      written out where the code truncates;
    - a run-time panic and unbounded recursion are outcomes of [result]. *)

From Stdlib Require Import ZArith Init.Byte.
From Stdlib Require Strings.String Strings.Byte.
From Stdlib Require Import Strings.Ascii.
From stdpp Require Import base list strings.

Local Open Scope Z_scope.

(** ** The run-time model *)

Inductive panic : Type :=
| IndexOutOfRange
| SliceBoundsOutOfRange.

(** [Diverge] is what a computation bounded by fuel yields when the fuel is
    gone: a program that gets [Diverge] for every amount of fuel does not
    return (in Go, the goroutine stack grows until the run time aborts the
    process). *)
Inductive result (A : Type) : Type :=
| Ok (a : A)
| Panic (p : panic)
| Diverge.

Arguments Ok {A} a.
Arguments Panic {A} p.
Arguments Diverge {A}.

(** Sequencing: the first panic, or the exhaustion of the fuel, ends the
    computation. *)
#[global] Instance result_bind : MBind result := fun A B k r =>
  match r with
  | Ok a => k a
  | Panic p => Panic p
  | Diverge => Diverge
  end.

(** *** Bytes *)

Definition byte_val (b : byte) : Z := Z.of_N (Byte.to_N b).

(** The conversion [byte(n)] of an integer keeps its low 8 bits. *)
Definition byte_of_Z (n : Z) : byte :=
  match Byte.of_N (Z.to_N (n mod 256)) with
  | Some b => b
  | None => x00
  end.

(** *** Slices

    A slice is a window on a backing array.  [arr] holds the array from the
    first element of the slice up to its capacity, and [len] is the length of
    the slice: indexing is checked against the length, re-slicing against the
    capacity (Go specification, "Slice expressions"). *)
Record slice : Type := mkSlice { arr : list byte; len : nat }.

Definition cap (s : slice) : nat := length (arr s).

(** A slice whose length is its capacity: a literal, or [make([]byte, n)]. *)
Definition full (l : list byte) : slice := mkSlice l (length l).

(** [buf[i]] *)
Definition index (buf : slice) (i : Z) : result byte :=
  if (0 <=? i) && (i <? Z.of_nat (len buf)) then
    match arr buf !! Z.to_nat i with
    | Some b => Ok b
    | None => Panic IndexOutOfRange
    end
  else Panic IndexOutOfRange.

(** [buf[lo:hi]], as a slice of length [hi - lo] over the same array. *)
Definition reslice (buf : slice) (lo hi : Z) : result slice :=
  if (0 <=? lo) && (lo <=? hi) && (hi <=? Z.of_nat (cap buf)) then
    Ok (mkSlice (drop (Z.to_nat lo) (arr buf)) (Z.to_nat (hi - lo)))
  else Panic SliceBoundsOutOfRange.

(** The elements of a slice, up to its length. *)
Definition bytes_of (s : slice) : list byte := take (len s) (arr s).

(** *** Strings *)

(** [len(s)] *)
Definition strlen (s : string) : Z := Z.of_nat (String.length s).

(** [strings.Split(s, sep)] for a separator of one character, the only use
    the package makes of it: the pieces of [s] between the separators.  The
    empty string splits into one empty piece. *)
Fixpoint Split (s : string) (sep : ascii) : list string :=
  match s with
  | EmptyString => [EmptyString]
  | String c rest =>
      if Ascii.eqb c sep then EmptyString :: Split rest sep
      else match Split rest sep with
           | piece :: pieces => String c piece :: pieces
           | [] => [String c EmptyString]
           end
  end.

(** [strings.Join(elems, sep)] *)
Definition Join (elems : list string) (sep : string) : string :=
  String.concat sep elems.

(** [binary.BigEndian.Uint16(b)]: reads [b[1]] first, so it panics on a slice
    shorter than two bytes. *)
Definition Uint16 (b : slice) : result Z :=
  b1 ← index b 1;
  b0 ← index b 0;
  Ok (Z.lor (byte_val b1) (Z.shiftl (byte_val b0) 8)).

(** [binary.BigEndian.PutUint16] on a fresh two-byte window, as the bytes
    written. *)
Definition PutUint16 (v : Z) : list byte :=
  [byte_of_Z (Z.shiftr v 8); byte_of_Z v].

(** ** question.go *)

Definition QuestionType : Type := Z.

Definition A : QuestionType := 1.
Definition NS : QuestionType := 2.
Definition MD : QuestionType := 3.
Definition MF : QuestionType := 4.
Definition CNAME : QuestionType := 5.
Definition SOA : QuestionType := 6.
Definition MB : QuestionType := 7.
Definition MG : QuestionType := 8.
Definition MR : QuestionType := 9.
Definition NULL : QuestionType := 10.
Definition WKS : QuestionType := 11.
Definition PTR : QuestionType := 12.
Definition MX : QuestionType := 15.
Definition TXT : QuestionType := 16.
Definition AAAA : QuestionType := 28.

Record Question : Type := mkQuestion {
  Name : string;
  Type_ : QuestionType;
  Class : Z
}.

(** [QuestionType.String]: the [switch] has a case for six of the fifteen
    declared constants. *)
Definition QuestionType_String (qt : QuestionType) : string :=
  if qt =? A then "A"
  else if qt =? NS then "NS"
  else if qt =? CNAME then "CNAME"
  else if qt =? MX then "MX"
  else if qt =? TXT then "TXT"
  else if qt =? AAAA then "AAAA"
  else "UNKNOWN".

(** [ParseDomainName]: the [for] loop with its two locals, [currentOffset]
    and [labels], as arguments.  One unit of fuel is spent on each iteration
    and on each recursive call; the recursive call on a compression pointer
    starts a new loop with no labels. *)
Fixpoint ParseDomainName_loop (fuel : nat) (buf : slice) (currentOffset : Z)
    (labels : list string) : result (string * Z) :=
  match fuel with
  | O => Diverge
  | S fuel' =>
      b ← index buf currentOffset;
      let labelLength := byte_val b in
      let currentOffset := currentOffset + 1 in
      if labelLength =? 0 then
        Ok (Join labels ".", currentOffset)
      else if 192 <=? labelLength then
        b' ← index buf currentOffset;
        let pointerOffset :=
          Z.lor (Z.shiftl (Z.land labelLength 63) 8) (byte_val b') in
        let currentOffset := currentOffset + 1 in
        r ← ParseDomainName_loop fuel' buf pointerOffset [];
        let pointerName := fst r in
        if 0 <? Z.of_nat (length labels) then
          Ok (Join labels "." +:+ "." +:+ pointerName, currentOffset)
        else
          Ok (pointerName, currentOffset)
      else
        s ← reslice buf currentOffset (currentOffset + labelLength);
        let label := String.string_of_list_byte (bytes_of s) in
        ParseDomainName_loop fuel' buf (currentOffset + labelLength)
          (labels ++ [label])
  end.

Definition ParseDomainName (fuel : nat) (buf : slice) (offset : Z)
    : result (string * Z) :=
  ParseDomainName_loop fuel buf offset [].

(** [ParseQuestion]: the name, then two big-endian 16-bit fields read through
    the two-byte windows [buf[newOffset : newOffset+2]]. *)
Definition ParseQuestion (fuel : nat) (buf : slice) (offset : Z)
    : result (Question * Z) :=
  r ← ParseDomainName fuel buf offset;
  let domainName := fst r in
  let newOffset := snd r in
  w ← reslice buf newOffset (newOffset + 2);
  qType ← Uint16 w;
  let newOffset := newOffset + 2 in
  w' ← reslice buf newOffset (newOffset + 2);
  class ← Uint16 w';
  let newOffset := newOffset + 2 in
  Ok (mkQuestion domainName qType class, newOffset).

(** [make([]byte, size)]: [size] zero bytes, length equal to capacity. *)
Definition make (size : Z) : list byte := replicate (Z.to_nat size) x00.

(** [buf[i] = b] on a slice whose length is its capacity. *)
Definition store (buf : list byte) (i : Z) (b : byte) : result (list byte) :=
  if (0 <=? i) && (i <? Z.of_nat (length buf)) then
    Ok (<[Z.to_nat i := b]> buf)
  else Panic IndexOutOfRange.

(** [copy(buf[off:], src)] on a slice whose length is its capacity: the
    window [buf[off:]] needs [off <= len(buf)], and [copy] writes as many
    bytes of [src] as fit in it. *)
Definition copy_from (buf : list byte) (off : Z) (src : list byte)
    : result (list byte) :=
  if (0 <=? off) && (off <=? Z.of_nat (length buf)) then
    Ok (list_inserts (Z.to_nat off) src buf)
  else Panic SliceBoundsOutOfRange.

(** The first loop of [EncodeDomainName]: the size of the labels. *)
Definition EncodeDomainName_size (labels : list string) : Z :=
  foldl (fun size label =>
           if 0 <? strlen label then size + (1 + strlen label) else size)
        0 labels.

(** The second loop of [EncodeDomainName]: each non-empty label is written
    at [offset] as its length, converted to a byte, and its bytes. *)
Fixpoint EncodeDomainName_write (labels : list string) (buf : list byte)
    (offset : Z) : result (list byte * Z) :=
  match labels with
  | [] => Ok (buf, offset)
  | label :: labels' =>
      if 0 <? strlen label then
        buf ← store buf offset (byte_of_Z (strlen label));
        let offset := offset + 1 in
        buf ← copy_from buf offset (String.list_byte_of_string label);
        let offset := offset + strlen label in
        EncodeDomainName_write labels' buf offset
      else EncodeDomainName_write labels' buf offset
  end.

Definition EncodeDomainName (domainName : string) : result (list byte) :=
  if String.eqb domainName "" || String.eqb domainName "." then
    Ok [x00]
  else
    let labels := Split domainName "." in
    let size := EncodeDomainName_size labels in
    let size := size + 1 in
    let buf := make size in
    let offset := 0 in
    r ← EncodeDomainName_write labels buf offset;
    let buf := fst r in
    let offset := snd r in
    buf ← store buf offset x00;
    Ok buf.

(** [binary.BigEndian.PutUint16(buf[lo:hi], v)] on a slice whose length is
    its capacity: the window is checked first, then [PutUint16] touches its
    second byte before it writes the two. *)
Definition PutUint16_window (buf : list byte) (lo hi : Z) (v : Z)
    : result (list byte) :=
  if (0 <=? lo) && (lo <=? hi) && (hi <=? Z.of_nat (length buf)) then
    if 1 <? hi - lo then Ok (list_inserts (Z.to_nat lo) (PutUint16 v) buf)
    else Panic IndexOutOfRange
  else Panic SliceBoundsOutOfRange.

(** [Question.Marshal]; [copy(buf, nameBuf)] is [copy(buf[0:], nameBuf)]. *)
Definition Question_Marshal (q : Question) : result (list byte) :=
  nameBuf ← EncodeDomainName (Name q);
  let buf := make (Z.of_nat (length nameBuf) + 4) in
  buf ← copy_from buf 0 nameBuf;
  let offset := Z.of_nat (length nameBuf) in
  buf ← PutUint16_window buf offset (offset + 2) (Type_ q);
  let offset := offset + 2 in
  buf ← PutUint16_window buf offset (offset + 2) (Class q);
  Ok buf.

(** ** The header codec

    The file that declares [Header], [ParseHeader], [Header.Marshal],
    [NewFlag] and [SetQR] is not among the sources; request.go and server.go
    only call them.  The definitions of this part follow sections 3 and 4.3
    of the specification. *)

(** Modelled from the spec: the type of the [Flag] field of a header, which
    the sources only build with [NewFlag] and update with [SetQR]; "a 16-bit
    packed field", "backed by a single 16-bit word". *)
Definition FlagWord : Type := Z.

(** Modelled from the spec: the [Header] struct, of which the sources show the
    field names: "ID (16-bit transaction identifier)", "Flags, a 16-bit packed
    field", "QDCount, ANCount, NSCount, ARCount (16-bit counts)". *)
Record Header : Type := mkHeader {
  ID : Z;
  Flag : FlagWord;
  QDCount : Z;
  ANCount : Z;
  NSCount : Z;
  ARCount : Z
}.

(** A field of type [uint16] holds a value below 2^16. *)
Definition is_uint16 (v : Z) : Prop := 0 <= v < 65536.

Definition Header_wf (h : Header) : Prop :=
  is_uint16 (ID h) /\ is_uint16 (Flag h) /\ is_uint16 (QDCount h) /\
  is_uint16 (ANCount h) /\ is_uint16 (NSCount h) /\ is_uint16 (ARCount h).

(** Modelled from the spec: the sub-fields of the flags word and their
    accessors, which are missing with the header file; "QR (1 bit), Opcode
    (4 bits), AA/TC/RD/RA (1 bit each), Z (3 reserved bits), RCODE (4 bits)",
    from the most significant bit down, read and written by "mask-and-shift
    discipline". *)
Record subfield : Type := mkSubfield { shift : Z; width : Z }.

Definition QR_field : subfield := mkSubfield 15 1.
Definition Opcode_field : subfield := mkSubfield 11 4.
Definition AA_field : subfield := mkSubfield 10 1.
Definition TC_field : subfield := mkSubfield 9 1.
Definition RD_field : subfield := mkSubfield 8 1.
Definition RA_field : subfield := mkSubfield 7 1.
Definition Z_field : subfield := mkSubfield 4 3.
Definition RCODE_field : subfield := mkSubfield 0 4.

Definition subfields : list subfield :=
  [QR_field; Opcode_field; AA_field; TC_field; RD_field; RA_field; Z_field;
   RCODE_field].

(** Modelled from the spec: the getter of a sub-field, [(w >> shift) & mask]. *)
Definition get_subfield (f : subfield) (w : FlagWord) : Z :=
  Z.land (Z.shiftr w (shift f)) (Z.ones (width f)).

(** Modelled from the spec: the setter of a sub-field,
    [(w &^ (mask << shift)) | ((v & mask) << shift)]. *)
Definition set_subfield (f : subfield) (w : FlagWord) (v : Z) : FlagWord :=
  Z.lor (Z.ldiff w (Z.shiftl (Z.ones (width f)) (shift f)))
        (Z.shiftl (Z.land v (Z.ones (width f))) (shift f)).

(** Modelled from the spec: [NewFlag], called by [Listen] on two zero bytes;
    the word the two bytes hold, big-endian like the rest of the header. *)
Definition NewFlag (b : slice) : result FlagWord := Uint16 b.

(** Modelled from the spec: [SetQR], the setter of the QR bit. *)
Definition SetQR (w : FlagWord) (qr : bool) : FlagWord :=
  set_subfield QR_field w (if qr then 1 else 0).

(** Modelled from the spec: [ParseHeader], "ID = first 2 bytes big-endian;
    Flags = next 2 bytes big-endian; QDCount/ANCount/NSCount/ARCount = the
    remaining four 2-byte big-endian fields, in that fixed order". *)
Definition ParseHeader (buf : slice) : result Header :=
  w0 ← reslice buf 0 2; id ← Uint16 w0;
  w1 ← reslice buf 2 4; flag ← Uint16 w1;
  w2 ← reslice buf 4 6; qd ← Uint16 w2;
  w3 ← reslice buf 6 8; an ← Uint16 w3;
  w4 ← reslice buf 8 10; ns ← Uint16 w4;
  w5 ← reslice buf 10 12; ar ← Uint16 w5;
  Ok (mkHeader id flag qd an ns ar).

(** Modelled from the spec: [Header.Marshal], "inverse of decode, identical
    field order and widths", a 12-byte buffer. *)
Definition Header_Marshal (h : Header) : list byte :=
  PutUint16 (ID h) ++ PutUint16 (Flag h) ++ PutUint16 (QDCount h) ++
  PutUint16 (ANCount h) ++ PutUint16 (NSCount h) ++ PutUint16 (ARCount h).

(** ** request.go *)

(** A value of type [interface{}]: [nil], or a boxed value.  The package
    never stores one; a question is the value the specification expects. *)
Inductive any : Type :=
| nil_interface
| boxed_Question (q : Question).

Record Request : Type := mkRequest {
  Request_Header : Header;
  Request_Question : any;
  Request_Answer : any
}.

(** [ParseRequest]: the composite literal names the [Header] field only, the
    other two fields keep their zero value. *)
Definition ParseRequest (buf : slice) : result Request :=
  w ← reslice buf 0 12;
  h ← ParseHeader w;
  Ok (mkRequest h nil_interface nil_interface).

(** [copy(buf[:hi], src)] on a slice whose length is its capacity. *)
Definition copy_to (buf : list byte) (hi : Z) (src : list byte)
    : result (list byte) :=
  if (0 <=? hi) && (hi <=? Z.of_nat (length buf)) then
    Ok (list_inserts 0 (take (Z.to_nat hi) src) buf)
  else Panic SliceBoundsOutOfRange.

(** [Request.Marshal] *)
Definition Request_Marshal (m : Request) : result (list byte) :=
  let buf := make 512 in
  copy_to buf 12 (Header_Marshal (Request_Header m)).

(** ** server.go *)

(** The part of the body of the loop of [Listen] that follows the parse:
    the response header is built from the request and written at the front
    of a fresh 512-byte response. *)
Definition Listen_respond (request : Request) : result (Header * list byte) :=
  flag ← NewFlag (full [x00; x00]);
  let header :=
    mkHeader (ID (Request_Header request)) flag
             (QDCount (Request_Header request))
             (ANCount (Request_Header request))
             (NSCount (Request_Header request))
             (ARCount (Request_Header request)) in
  let header :=
    mkHeader (ID header) (SetQR (Flag header) true) (QDCount header)
             (ANCount header) (NSCount header) (ARCount header) in
  let response := make 512 in
  let responseHeader := Header_Marshal header in
  response ← copy_to response 12 responseHeader;
  Ok (header, response).

(** [conn.ReadFromUDP(buf)] on a datagram: the payload is copied to the front
    of [buf], cut at the length of [buf], and its size is returned. *)
Definition ReadFromUDP (buf : list byte) (payload : list byte)
    : list byte * Z :=
  (list_inserts 0 payload buf,
   Z.of_nat (length payload) `min` Z.of_nat (length buf)).

(** One turn of the loop of [Listen] on a datagram: the new contents of the
    receive buffer, which the next turn reuses, and the response handed to
    [conn.WriteToUDP].  The two [Printf] calls only write to the standard
    output and are left out. *)
Definition Listen_turn (buf : list byte) (payload : list byte)
    : result (list byte * list byte) :=
  let '(buf, size) := ReadFromUDP buf payload in
  w ← reslice (full buf) 0 size;
  request ← ParseRequest w;
  r ← Listen_respond request;
  Ok (buf, snd r).

(** What the socket does in one turn: a read fails, or a datagram arrives
    and the write of its response succeeds or fails. *)
Inductive turn : Type :=
| ReadFails
| Datagram (payload : list byte) (write_ok : bool).

(** How a run of [Listen] over finitely many turns of the socket stands at
    the end: returned with the error of the socket, stopped by a panic, or
    still in the loop, blocked in [ReadFromUDP]. *)
Inductive standing : Type :=
| Returned
| Crashed (p : panic)
| Hung
| Serving.

(** [Listen], after [net.ListenUDP] succeeded: the responses that the socket
    accepted, in order, and how the run stands.  A panic in the parse is not
    recovered anywhere and ends the process. *)
Fixpoint Listen_loop (buf : list byte) (turns : list turn)
    : list (list byte) * standing :=
  match turns with
  | [] => ([], Serving)
  | ReadFails :: _ => ([], Returned)
  | Datagram payload write_ok :: turns' =>
      match Listen_turn buf payload with
      | Ok (buf', response) =>
          if write_ok then
            let '(sent, st) := Listen_loop buf' turns' in
            (response :: sent, st)
          else ([], Returned)
      | Panic p => ([], Crashed p)
      | Diverge => ([], Hung)
      end
  end.

Definition Listen (turns : list turn) : list (list byte) * standing :=
  let buf := make 512 in
  Listen_loop buf turns.

(** ** The wire form of a name, as the specification describes it

    "Splits on [.], writes each non-empty label as [length][bytes],
    terminates with a single 0 byte."  [EncodeDomainName] is compared with
    it below. *)

Definition nonempty (label : string) : bool := 0 <? strlen label.

Definition encode_label (label : string) : list byte :=
  byte_of_Z (strlen label) :: String.list_byte_of_string label.

Fixpoint encode_labels (labels : list string) : list byte :=
  match labels with
  | [] => []
  | label :: labels' => encode_label label ++ encode_labels labels'
  end.

Definition wire_form (domainName : string) : list byte :=
  encode_labels (List.filter nonempty (Split domainName ".")) ++ [x00].

(** The name with its empty labels removed. *)
Definition normalize (domainName : string) : string :=
  Join (List.filter nonempty (Split domainName ".")) ".".

(** A label that [ParseDomainName] reads back as one label: its length,
    as a byte, is neither the terminator nor a compression pointer. *)
Definition ordinary_label (label : string) : Prop := 1 <= strlen label < 192.

(** A well-formed name: every label has 1 to 63 bytes (the root name, the
    empty string, has no label), and the encoded name, whose size is what the
    first loop of [EncodeDomainName] computes plus the terminator, has at most
    255 bytes. *)
Definition label_ok (label : string) : Prop := 1 <= strlen label <= 63.

Definition encoded_length (domainName : string) : Z :=
  EncodeDomainName_size (Split domainName ".") + 1.

Definition well_formed (domainName : string) : Prop :=
  (domainName = "" \/ Forall label_ok (Split domainName "."))
  /\ encoded_length domainName <= 255.

(** A name with a label of more than 63 bytes or an encoded form of more
    than 255 bytes. *)
Definition too_long (domainName : string) : Prop :=
  Exists (fun label => 63 < strlen label) (Split domainName ".")
  \/ 255 < encoded_length domainName.

(** Whether a character occurs in a string. *)
Fixpoint has_char (c : ascii) (s : string) : bool :=
  match s with
  | EmptyString => false
  | String c' s' => Ascii.eqb c' c || has_char c s'
  end.

(** [n] copies of a character. *)
Fixpoint repeat_char (c : ascii) (n : nat) : string :=
  match n with
  | O => EmptyString
  | S n' => String c (repeat_char c n')
  end.

(** A name of one label of 64 bytes, and a name of five labels of 63 bytes,
    320 bytes long. *)
Definition label64 : string := repeat_char "a" 64.

Definition name320 : string :=
  Join (replicate 5 (repeat_char "a" 63)) ".".

(** The 14-bit value of a compression pointer: the low 6 bits of the first
    byte, then the 8 bits of the second. *)
Definition pointer_target (b1 b2 : byte) : Z :=
  (byte_val b1 mod 64) * 256 + byte_val b2.

(** The name returned at a pointer: the labels seen so far, a dot and the
    pointed-to name, or the pointed-to name alone after no label. *)
Definition pointer_join (labels : list string) (pointerName : string)
    : string :=
  match labels with
  | [] => pointerName
  | _ :: _ => Join labels "." +:+ "." +:+ pointerName
  end.

Definition www : list byte := [x03; "w"; "w"; "w"]%byte.

Definition example_com : list byte :=
  [x07; "e"; "x"; "a"; "m"; "p"; "l"; "e"; x03; "c"; "o"; "m"; x00]%byte.

(** ["example.com"] at offset 0, a pointer to it at offset 13, ["www"] and a
    pointer to offset 13 at offset 15, a pointer to offset 15 at offset 21. *)
Definition compressed_message : slice :=
  full (example_com ++ [xc0; x00] ++ www ++ [xc0; x0d] ++ [xc0; x0f])%byte.

(** A pointer at offset 0 to offset 0, and a pointer at offset 0 to the
    root name at offset 2. *)
Definition self_pointer : slice := full [xc0; x00].

Definition forward_pointer : slice := full [xc0; x02; x00].

(** The label ["www"] at offset 0, then a pointer at offset 4 back to
    offset 0. *)
Definition backward_cycle : slice := full (www ++ [xc0; x00]).

(** The big-endian value of two bytes. *)
Definition be16 (b0 b1 : byte) : Z := byte_val b0 * 256 + byte_val b1.

(** The datagram of the end-to-end scenario: the header with ID 0x1234, no
    flag set, one question and no other record, then the question for
    ["codecrafters.io"], type A, class 1. *)
Definition scenario_header : list byte :=
  [x12; x34; x00; x00; x00; x01; x00; x00; x00; x00; x00; x00].

Definition scenario_question : Question := mkQuestion "codecrafters.io" A 1.

Definition scenario_datagram : list byte :=
  scenario_header ++
  [x0c; "c"; "o"; "d"; "e"; "c"; "r"; "a"; "f"; "t"; "e"; "r"; "s";
   x02; "i"; "o"; x00; x00; x01; x00; x01]%byte.

(** Two sub-fields that share no bit, and a sub-field inside the word. *)
Definition disjoint_subfields (f g : subfield) : Prop :=
  shift f + width f <= shift g \/ shift g + width g <= shift f.

Definition subfield_wf (f : subfield) : Prop :=
  0 <= shift f /\ 0 <= width f /\ shift f + width f <= 16.

(** The flag sub-fields other than QR. *)
Definition other_subfields : list subfield :=
  [Opcode_field; AA_field; TC_field; RD_field; RA_field; Z_field; RCODE_field].

(** A datagram of three bytes, and one whose question has a length byte of
    63 with one byte after it. *)
Definition short_datagram : list byte := [x12; x34; x01].

Definition truncated_label_datagram : list byte :=
  scenario_header ++ [x3f; "a"]%byte.

(** No byte of the slice, up to its length, has the two top bits set. *)
Definition pointer_free (buf : slice) : Prop :=
  Forall (fun b => byte_val b < 192) (bytes_of buf).

(** A slice of length 1 over an array of 5 bytes: the root name, and a type
    and a class in the capacity of the slice. *)
Definition root_with_capacity : slice :=
  mkSlice [x00; x00; x1c; x00; x01] 1.

(** A name that ends, at an offset of a buffer: labels up to a terminator,
    or labels up to a pointer to a name that ends.  [pointer_chain buf off
    name newOffset turns] gives the name, the offset after the terminator or
    the pointer, and the number of turns of the loop, over all the calls,
    that reading it takes. *)
Inductive pointer_chain (buf : slice) : Z -> string -> Z -> nat -> Prop :=
| chain_end (pre post : list byte) (ls : list string) :
    arr buf = pre ++ (encode_labels ls ++ [x00]) ++ post ->
    (length pre + length (encode_labels ls) < len buf)%nat ->
    Forall ordinary_label ls ->
    pointer_chain buf (Z.of_nat (length pre)) (Join ls ".")
      (Z.of_nat (length pre) + Z.of_nat (length (encode_labels ls)) + 1)
      (length ls + 1)
| chain_pointer (pre post : list byte) (ls : list string) (b1 b2 : byte)
    (name : string) (newOffset : Z) (turns : nat) :
    arr buf = pre ++ encode_labels ls ++ b1 :: b2 :: post ->
    (length pre + length (encode_labels ls) + 2 <= len buf)%nat ->
    Forall ordinary_label ls ->
    192 <= byte_val b1 ->
    pointer_chain buf (pointer_target b1 b2) name newOffset turns ->
    pointer_chain buf (Z.of_nat (length pre)) (pointer_join ls name)
      (Z.of_nat (length pre) + Z.of_nat (length (encode_labels ls)) + 2)
      (length ls + S turns).

(** Two pointers that point at each other: the one at offset 0 to offset 2,
    the one at offset 2 to offset 0. *)
Definition pointer_cycle : slice := full [xc0; x02; xc0; x00].

(** The response to a datagram, from the receive buffer after the read: the
    first two bytes of the buffer, the flag bytes [0x80 0x00], the bytes 4
    to 11 of the buffer, and 500 zero bytes. *)
Definition header_echo (buf : list byte) : list byte :=
  take 2 buf ++ [x80; x00] ++ take 8 (drop 4 buf) ++ replicate 500 x00.

(** The responses to a run of datagrams: each datagram is copied over the
    front of the receive buffer, which keeps the rest of its bytes, and is
    answered from the buffer. *)
Fixpoint answers (buf : list byte) (payloads : list (list byte))
    : list (list byte) :=
  match payloads with
  | [] => []
  | payload :: payloads' =>
      let buf' := list_inserts 0 payload buf in
      header_echo buf' :: answers buf' payloads'
  end.

(** A buffer that starts with the byte [b] and in which [ParseDomainName]
    returns a name at offset 0: the terminator alone; a label of [b] zero
    bytes and the terminator; a pointer, made of [b] and the byte 2, to the
    root name at its target. *)
Definition accepting_buffer (b : byte) : slice :=
  if byte_val b =? 0 then full [b]
  else if 192 <=? byte_val b then
    full (b :: x02 :: replicate (Z.to_nat (pointer_target b x02) - 1) x00)
  else full (b :: replicate (Z.to_nat (byte_val b)) x00 ++ [x00]).

(** * Properties *)

(** ** Bytes and strings *)

Lemma byte_val_range (b : byte) : 0 <= byte_val b < 256.
Proof.
  unfold byte_val. pose proof (Byte.to_N_bounded b). lia.
Qed.

Lemma byte_val_of_Z (n : Z) : byte_val (byte_of_Z n) = n mod 256.
Proof.
  unfold byte_val, byte_of_Z.
  pose proof (Z.mod_pos_bound n 256 eq_refl) as Hn.
  destruct (Byte.of_N (Z.to_N (n mod 256))) as [b|] eqn:E.
  - apply Byte.to_of_N in E. rewrite E. lia.
  - apply Byte.of_N_None_iff in E. lia.
Qed.

Lemma byte_of_Z_val (b : byte) : byte_of_Z (byte_val b) = b.
Proof.
  unfold byte_of_Z. pose proof (byte_val_range b) as Hb.
  rewrite Z.mod_small by lia. unfold byte_val. rewrite N2Z.id.
  now rewrite Byte.of_to_N.
Qed.

Lemma length_list_byte_of_string (s : string) :
  length (String.list_byte_of_string s) = String.length s.
Proof.
  unfold String.list_byte_of_string. rewrite length_map.
  induction s as [|c s IH]; simpl; [reflexivity | now rewrite IH].
Qed.

Lemma strlen_list_byte (s : string) :
  Z.of_nat (length (String.list_byte_of_string s)) = strlen s.
Proof. unfold strlen. now rewrite length_list_byte_of_string. Qed.

(** ** [Split] and [Join] *)

Lemma Split_not_nil (s : string) (sep : ascii) : Split s sep <> [].
Proof.
  destruct s as [|c s]; simpl; [discriminate|].
  destruct (Ascii.eqb c sep); [discriminate|].
  destruct (Split s sep); discriminate.
Qed.

Lemma concat_cons (sep x : string) (xs : list string) :
  xs <> [] -> String.concat sep (x :: xs) = x +:+ sep +:+ String.concat sep xs.
Proof. destruct xs; [congruence | reflexivity]. Qed.

(** Joining the pieces of a string gives the string back. *)
Lemma Join_Split (s : string) : Join (Split s ".") "." = s.
Proof.
  unfold Join. induction s as [|c s IH]; simpl; [reflexivity|].
  destruct (Ascii.eqb c ".") eqn:E.
  - apply Ascii.eqb_eq in E. subst c.
    rewrite concat_cons by apply Split_not_nil. simpl. now rewrite IH.
  - pose proof (Split_not_nil s ".") as Hne.
    destruct (Split s ".") as [|piece pieces]; [congruence|].
    transitivity (String c (String.concat "." (piece :: pieces))).
    + destruct pieces; reflexivity.
    + now rewrite IH.
Qed.

Lemma Split_no_sep (s : string) (sep : ascii) :
  Forall (fun piece => has_char sep piece = false) (Split s sep).
Proof.
  induction s as [|c s IH]; simpl.
  - constructor; [reflexivity | constructor].
  - destruct (Ascii.eqb c sep) eqn:E.
    + constructor; [reflexivity | exact IH].
    + pose proof (Split_not_nil s sep) as Hne.
      destruct (Split s sep) as [|piece pieces]; [congruence|].
      inversion IH as [|? ? Hp Hps]; subst.
      constructor; [simpl; now rewrite E | exact Hps].
Qed.

Lemma Split_append_sep (x rest : string) (sep : ascii) :
  has_char sep x = false ->
  Split (x +:+ String sep rest) sep = x :: Split rest sep.
Proof.
  induction x as [|c x IH]; simpl; intros Hx.
  - now rewrite Ascii.eqb_refl.
  - apply orb_false_iff in Hx as [Hc Hx]. rewrite Hc, IH by exact Hx.
    reflexivity.
Qed.

Lemma Split_no_sep_id (x : string) (sep : ascii) :
  has_char sep x = false -> Split x sep = [x].
Proof.
  induction x as [|c x IH]; simpl; intros Hx; [reflexivity|].
  apply orb_false_iff in Hx as [Hc Hx]. now rewrite Hc, IH.
Qed.

(** Splitting the join of pieces that hold no separator gives the pieces. *)
Lemma Split_Join (pieces : list string) :
  pieces <> [] ->
  Forall (fun piece => has_char "." piece = false) pieces ->
  Split (Join pieces ".") "." = pieces.
Proof.
  unfold Join. induction pieces as [|x xs IH]; intros Hne Hall; [congruence|].
  inversion Hall as [|? ? Hx Hxs]; subst.
  destruct xs as [|y ys].
  - simpl. now apply Split_no_sep_id.
  - rewrite concat_cons by discriminate.
    change ("." +:+ String.concat "." (y :: ys))
      with (String "."%char (String.concat "." (y :: ys))).
    rewrite Split_append_sep by exact Hx.
    now rewrite IH.
Qed.

(** ** Bounds checks that succeed *)

Ltac in_bounds :=
  repeat match goal with
         | |- context [?a <=? ?b] => destruct (Z.leb_spec a b); try lia
         | |- context [?a <? ?b] => destruct (Z.ltb_spec a b); try lia
         end;
  cbn [andb].

Lemma store_ok (buf : list byte) (i : Z) (b : byte) :
  0 <= i < Z.of_nat (length buf) ->
  store buf i b = Ok (<[Z.to_nat i := b]> buf).
Proof. intros H. unfold store. in_bounds. reflexivity. Qed.

Lemma copy_from_ok (buf : list byte) (off : Z) (src : list byte) :
  0 <= off <= Z.of_nat (length buf) ->
  copy_from buf off src = Ok (list_inserts (Z.to_nat off) src buf).
Proof. intros H. unfold copy_from. in_bounds. reflexivity. Qed.

Lemma copy_to_ok (buf : list byte) (hi : Z) (src : list byte) :
  0 <= hi <= Z.of_nat (length buf) ->
  copy_to buf hi src = Ok (list_inserts 0 (take (Z.to_nat hi) src) buf).
Proof. intros H. unfold copy_to. in_bounds. reflexivity. Qed.

Lemma index_ok (buf : slice) (i : nat) (b : byte) :
  (i < len buf)%nat -> arr buf !! i = Some b ->
  index buf (Z.of_nat i) = Ok b.
Proof.
  intros Hi Hb. unfold index. in_bounds. now rewrite Nat2Z.id, Hb.
Qed.

Lemma reslice_ok (buf : slice) (lo n : nat) :
  (lo + n <= cap buf)%nat ->
  reslice buf (Z.of_nat lo) (Z.of_nat lo + Z.of_nat n)
  = Ok (mkSlice (drop lo (arr buf)) n).
Proof.
  intros H. unfold reslice. in_bounds.
  rewrite Nat2Z.id. do 2 f_equal. lia.
Qed.

(** ** [EncodeDomainName] writes the wire form *)

Lemma encode_labels_app (ls1 ls2 : list string) :
  encode_labels (ls1 ++ ls2) = encode_labels ls1 ++ encode_labels ls2.
Proof.
  induction ls1 as [|l ls1 IH]; simpl; [reflexivity|].
  now rewrite IH, <- !app_assoc.
Qed.

Lemma length_encode_label (label : string) :
  length (encode_label label) = S (String.length label).
Proof.
  unfold encode_label. simpl length. now rewrite length_list_byte_of_string.
Qed.

Lemma filter_nonempty_cons (l : string) (ls : list string) :
  List.filter nonempty (l :: ls)
  = if 0 <? strlen l then l :: List.filter nonempty ls
    else List.filter nonempty ls.
Proof. reflexivity. Qed.

Lemma EncodeDomainName_size_acc (labels : list string) (acc : Z) :
  foldl (fun size label =>
           if 0 <? strlen label then size + (1 + strlen label) else size)
        acc labels
  = acc + Z.of_nat (length (encode_labels (List.filter nonempty labels))).
Proof.
  revert acc. induction labels as [|l ls IH]; intros acc.
  - simpl. lia.
  - cbn [foldl]. rewrite IH, filter_nonempty_cons.
    destruct (0 <? strlen l); [|reflexivity].
    cbn [encode_labels]. rewrite length_app, length_encode_label.
    unfold strlen. lia.
Qed.

Lemma EncodeDomainName_size_spec (labels : list string) :
  EncodeDomainName_size labels
  = Z.of_nat (length (encode_labels (List.filter nonempty labels))).
Proof. unfold EncodeDomainName_size. now rewrite EncodeDomainName_size_acc. Qed.

(** One non-empty label written into the zero bytes that follow [done]. *)
Lemma write_label (done : list byte) (label : string) (m : nat) :
  let buf := done ++ replicate (S (String.length label) + m) x00 in
  (buf' ← store buf (Z.of_nat (length done)) (byte_of_Z (strlen label));
   copy_from buf' (Z.of_nat (length done) + 1)
             (String.list_byte_of_string label))
  = Ok ((done ++ encode_label label) ++ replicate m x00).
Proof.
  intros buf. subst buf.
  rewrite store_ok by (rewrite length_app, length_replicate; lia).
  cbn [mbind result_bind]. rewrite Nat2Z.id.
  replace (length done) with (length done + 0)%nat at 1 by lia.
  rewrite insert_app_r. cbn [Nat.add replicate].
  simpl (<[0%nat:=_]> _).
  rewrite copy_from_ok
    by (rewrite length_app; cbn [length]; rewrite length_replicate; lia).
  f_equal.
  replace (Z.to_nat (Z.of_nat (length done) + 1))
    with (length (done ++ [byte_of_Z (strlen label)]) + 0)%nat
    by (rewrite length_app; simpl; lia).
  replace (done ++ byte_of_Z (strlen label)
                :: replicate (String.length label + m) x00)
    with ((done ++ [byte_of_Z (strlen label)])
            ++ replicate (String.length label + m) x00)
    by (now rewrite <- app_assoc).
  rewrite list_inserts_app_r, replicate_add.
  rewrite list_inserts_0_r
    by (now rewrite length_replicate, length_list_byte_of_string).
  unfold encode_label. now rewrite <- !app_assoc.
Qed.

(** The invariant of the second loop: the buffer is what was written so far
    followed by zero bytes, and [offset] is the length of what was written. *)
Lemma EncodeDomainName_write_spec (labels : list string) :
  forall (done : list byte) (n : nat),
    (length (encode_labels (List.filter nonempty labels)) <= n)%nat ->
    EncodeDomainName_write labels (done ++ replicate n x00)
                           (Z.of_nat (length done))
    = Ok (done ++ encode_labels (List.filter nonempty labels)
               ++ replicate
                    (n - length (encode_labels (List.filter nonempty labels)))
                    x00,
          Z.of_nat (length done
                    + length (encode_labels (List.filter nonempty labels)))).
Proof.
  induction labels as [|l ls IH]; intros done n Hn.
  - simpl. rewrite Nat.sub_0_r, Nat.add_0_r. reflexivity.
  - cbn [EncodeDomainName_write]. rewrite filter_nonempty_cons in *.
    destruct (0 <? strlen l) eqn:El; [|now apply IH].
    cbn [encode_labels] in *.
    rewrite length_app, length_encode_label in *.
    set (rest := encode_labels (List.filter nonempty ls)) in *.
    replace n with (S (String.length l) + (n - S (String.length l)))%nat
      at 1 by lia.
    pose proof (write_label done l (n - S (String.length l))) as Hw.
    cbn zeta in Hw.
    destruct (store _ _ _) as [buf'| |]; try discriminate Hw.
    cbn [mbind result_bind] in Hw |- *. rewrite Hw.
    cbn [mbind result_bind].
    replace (Z.of_nat (length done) + 1 + strlen l)
      with (Z.of_nat (length (done ++ encode_label l)))
      by (rewrite length_app, length_encode_label; unfold strlen; lia).
    rewrite IH by lia.
    rewrite length_app, length_encode_label, <- !app_assoc.
    f_equal. f_equal; [|lia]. do 3 f_equal. f_equal. lia.
Qed.

Lemma Split_filter_root (domainName : string) :
  domainName = "" \/ domainName = "." ->
  List.filter nonempty (Split domainName ".") = [].
Proof. intros [-> | ->]; reflexivity. Qed.

(** [EncodeDomainName] never panics and returns the wire form. *)
Lemma EncodeDomainName_wire (domainName : string) :
  EncodeDomainName domainName = Ok (wire_form domainName).
Proof.
  unfold EncodeDomainName, wire_form.
  destruct (String.eqb domainName "" || String.eqb domainName ".") eqn:E.
  - apply orb_true_iff in E as [E | E]; apply String.eqb_eq in E; subst;
      reflexivity.
  - rewrite EncodeDomainName_size_spec.
    set (labels := Split domainName ".").
    set (enc := encode_labels (List.filter nonempty labels)).
    unfold make.
    replace (Z.to_nat (Z.of_nat (length enc) + 1)) with (S (length enc)) by lia.
    change (replicate (S (length enc)) x00)
      with ([] ++ replicate (S (length enc)) x00).
    change 0 with (Z.of_nat (length (@nil byte))) at 1.
    rewrite EncodeDomainName_write_spec by (fold enc; lia).
    fold enc. cbn [mbind result_bind fst snd app length Nat.add].
    replace (S (length enc) - length enc)%nat with 1%nat by lia.
    rewrite store_ok by (rewrite length_app; simpl; lia).
    replace (Z.to_nat (Z.of_nat (length enc)))
      with (length enc + 0)%nat by lia.
    rewrite insert_app_r. reflexivity.
Qed.

(** ** [ParseDomainName] on a run of labels *)

Lemma ParseDomainName_loop_step (fuel : nat) (buf : slice) (off : Z)
    (labels : list string) :
  ParseDomainName_loop (S fuel) buf off labels
  = (b ← index buf off;
     if byte_val b =? 0 then Ok (Join labels ".", off + 1)
     else if 192 <=? byte_val b then
       b' ← index buf (off + 1);
       r ← ParseDomainName_loop fuel buf
             (Z.lor (Z.shiftl (Z.land (byte_val b) 63) 8) (byte_val b')) [];
       if 0 <? Z.of_nat (length labels) then
         Ok (Join labels "." +:+ "." +:+ fst r, off + 1 + 1)
       else Ok (fst r, off + 1 + 1)
     else
       s ← reslice buf (off + 1) (off + 1 + byte_val b);
       ParseDomainName_loop fuel buf (off + 1 + byte_val b)
         (labels ++ [String.string_of_list_byte (bytes_of s)])).
Proof. reflexivity. Qed.

(** The step of the loop at a length byte that is neither 0 nor a pointer. *)
Lemma ParseDomainName_reserved_or_short_label (fuel : nat) (buf : slice)
    (off : Z) (labels : list string) (b : byte) (s : slice) :
  index buf off = Ok b ->
  1 <= byte_val b < 192 ->
  reslice buf (off + 1) (off + 1 + byte_val b) = Ok s ->
  ParseDomainName_loop (S fuel) buf off labels
  = ParseDomainName_loop fuel buf (off + 1 + byte_val b)
      (labels ++ [String.string_of_list_byte (bytes_of s)]).
Proof.
  intros Hb Hrange Hs. rewrite ParseDomainName_loop_step, Hb.
  cbn [mbind result_bind].
  destruct (Z.eqb_spec (byte_val b) 0); [lia|].
  destruct (Z.leb_spec 192 (byte_val b)); [lia|].
  now rewrite Hs.
Qed.

(** Fuel only bounds the computation: a run that ends, with a result or
    with a panic, ends the same way with more fuel. *)
Lemma ParseDomainName_loop_fuel_mono (fuel : nat) :
  forall (buf : slice) (off : Z) (labels : list string) (fuel' : nat),
    ParseDomainName_loop fuel buf off labels <> Diverge ->
    (fuel <= fuel')%nat ->
    ParseDomainName_loop fuel' buf off labels
    = ParseDomainName_loop fuel buf off labels.
Proof.
  induction fuel as [|fuel IH]; intros buf off labels fuel' Hend Hle;
    [now contradict Hend|].
  destruct fuel' as [|fuel']; [lia|].
  rewrite !ParseDomainName_loop_step in *.
  destruct (index buf off) as [b| |]; cbn [mbind result_bind] in *;
    try reflexivity.
  destruct (byte_val b =? 0); [reflexivity|].
  destruct (192 <=? byte_val b).
  - destruct (index buf (off + 1)) as [b'| |]; cbn [mbind result_bind] in *;
      try reflexivity.
    rewrite (IH buf _ [] fuel'); [reflexivity| |lia].
    intros Hdiv. rewrite Hdiv in Hend. now apply Hend.
  - destruct (reslice buf (off + 1) (off + 1 + byte_val b)) as [s| |];
      cbn [mbind result_bind] in *; try reflexivity.
    apply IH; [exact Hend|lia].
Qed.

(** The bytes of one label at [pre]: the loop takes the label and goes on
    after it. *)
Lemma ParseDomainName_loop_label (fuel : nat) (buf : slice)
    (pre post : list byte) (label : string) (acc : list string) :
  arr buf = pre ++ encode_label label ++ post ->
  (length pre < len buf)%nat ->
  ordinary_label label ->
  ParseDomainName_loop (S fuel) buf (Z.of_nat (length pre)) acc
  = ParseDomainName_loop fuel buf
      (Z.of_nat (length pre + length (encode_label label))) (acc ++ [label]).
Proof.
  intros Harr Hlen [Hlo Hhi].
  rewrite ParseDomainName_loop_step.
  assert (Hb : byte_val (byte_of_Z (strlen label)) = strlen label)
    by (rewrite byte_val_of_Z; apply Z.mod_small; lia).
  rewrite (index_ok buf (length pre) (byte_of_Z (strlen label)));
    [|exact Hlen|rewrite Harr; now apply list_lookup_middle].
  cbn [mbind result_bind]. rewrite Hb.
  destruct (Z.eqb_spec (strlen label) 0); [lia|].
  destruct (Z.leb_spec 192 (strlen label)); [lia|].
  replace (Z.of_nat (length pre) + 1) with (Z.of_nat (S (length pre))) by lia.
  unfold strlen at 1 2. rewrite reslice_ok.
  - cbn [mbind result_bind]. unfold bytes_of. cbn [len arr].
    assert (Hd : take (String.length label) (drop (S (length pre)) (arr buf))
                 = String.list_byte_of_string label).
    { rewrite Harr. unfold encode_label.
      replace (pre ++ (byte_of_Z (strlen label)
                         :: String.list_byte_of_string label) ++ post)
        with ((pre ++ [byte_of_Z (strlen label)])
                ++ String.list_byte_of_string label ++ post)
        by (now rewrite <- app_assoc).
      rewrite drop_app_length' by (rewrite length_app; simpl; lia).
      apply take_app_length'. symmetry. apply length_list_byte_of_string. }
    rewrite Hd, String.string_of_list_byte_of_string.
    f_equal. rewrite length_encode_label. lia.
  - unfold cap. rewrite Harr, !length_app, length_encode_label. lia.
Qed.

Lemma ParseDomainName_loop_labels (ls : list string) :
  forall (fuel : nat) (buf : slice) (pre post : list byte)
         (acc : list string),
    arr buf = pre ++ encode_labels ls ++ post ->
    (length pre + length (encode_labels ls) <= len buf)%nat ->
    Forall ordinary_label ls ->
    ParseDomainName_loop (length ls + fuel) buf (Z.of_nat (length pre)) acc
    = ParseDomainName_loop fuel buf
        (Z.of_nat (length pre + length (encode_labels ls))) (acc ++ ls).
Proof.
  induction ls as [|l ls IH]; intros fuel buf pre post acc Harr Hlen Hall.
  - simpl. now rewrite Nat.add_0_r, app_nil_r.
  - inversion Hall as [|? ? Hl Hls]; subst.
    cbn [encode_labels] in *. rewrite length_app in *.
    cbn [length Nat.add].
    rewrite length_encode_label in Hlen.
    rewrite (ParseDomainName_loop_label _ buf pre (encode_labels ls ++ post) l);
      [|now rewrite Harr, <- app_assoc|lia|exact Hl].
    rewrite <- length_app.
    rewrite (IH fuel buf (pre ++ encode_label l) post);
      [|now rewrite Harr, <- !app_assoc
       |rewrite length_app, length_encode_label; lia|exact Hls].
    rewrite !length_app, <- app_assoc. simpl. f_equal. lia.
Qed.

(** The labels of a wire form, up to the terminator, decode to their join. *)
Lemma ParseDomainName_encode_labels (ls : list string) (fuel : nat) :
  Forall ordinary_label ls ->
  (length ls < fuel)%nat ->
  ParseDomainName fuel (full (encode_labels ls ++ [x00])) 0
  = Ok (Join ls ".", Z.of_nat (length (encode_labels ls ++ [x00]))).
Proof.
  intros Hall Hfuel. unfold ParseDomainName.
  replace fuel with (length ls + S (fuel - S (length ls)))%nat by lia.
  change 0 with (Z.of_nat (length (@nil byte))).
  rewrite (ParseDomainName_loop_labels ls _ _ [] [x00]);
    [|reflexivity|unfold full; cbn [len length]; rewrite length_app; lia
     |exact Hall].
  rewrite ParseDomainName_loop_step. cbn [length Nat.add app].
  rewrite (index_ok _ _ x00);
    [|unfold full; cbn [len]; rewrite length_app; simpl; lia
     |unfold full; cbn [arr]; now apply list_lookup_middle].
  cbn [mbind result_bind]. change (byte_val x00 =? 0) with true. cbn iota.
  do 2 f_equal. rewrite length_app. simpl. lia.
Qed.

Lemma filter_nonempty_id (ls : list string) :
  Forall (fun l => 1 <= strlen l) ls -> List.filter nonempty ls = ls.
Proof.
  induction 1 as [|l ls Hl _ IH]; [reflexivity|].
  rewrite filter_nonempty_cons, IH.
  destruct (Z.ltb_spec 0 (strlen l)); [reflexivity | lia].
Qed.

(** ** C1: decoding an encoded well-formed name *)

(** C1.  For every well-formed domain name [N] (labels of 1 to 63 bytes, no
    empty label, encoded length at most 255), [EncodeDomainName N] returns a
    buffer, and [ParseDomainName] on that buffer at offset 0 returns [N] and
    the length of the buffer, as soon as it is given more fuel than [N] has
    labels. *)
Theorem ParseDomainName_EncodeDomainName_roundtrip (N : string) :
  well_formed N ->
  exists wire,
    EncodeDomainName N = Ok wire /\
    forall fuel, (length (Split N ".") < fuel)%nat ->
      ParseDomainName fuel (full wire) 0 = Ok (N, Z.of_nat (length wire)).
Proof.
  intros [Hlabels _]. exists (wire_form N). split.
  - apply EncodeDomainName_wire.
  - intros fuel Hfuel. destruct Hlabels as [-> | Hall].
    + destruct fuel as [|fuel]; [simpl in Hfuel; lia | reflexivity].
    + unfold wire_form. rewrite filter_nonempty_id.
      * rewrite ParseDomainName_encode_labels; [now rewrite Join_Split| |exact Hfuel].
        eapply Forall_impl; [exact Hall|]. unfold label_ok, ordinary_label. lia.
      * eapply Forall_impl; [exact Hall|]. unfold label_ok. lia.
Qed.

Lemma ParseDomainName_EncodeDomainName_roundtrip_witness :
  exists wire,
    EncodeDomainName "codecrafters.io" = Ok wire /\
    forall fuel, (length (Split "codecrafters.io" ".") < fuel)%nat ->
      ParseDomainName fuel (full wire) 0
      = Ok ("codecrafters.io", Z.of_nat (length wire)).
Proof.
  apply (ParseDomainName_EncodeDomainName_roundtrip "codecrafters.io").
  split.
  - right. repeat constructor; vm_compute; discriminate.
  - vm_compute. discriminate.
Defined.

(** ** C7: names that are too long *)

Lemma length_wire_form (N : string) :
  Z.of_nat (length (wire_form N)) = encoded_length N.
Proof.
  unfold wire_form, encoded_length.
  rewrite EncodeDomainName_size_spec, length_app. simpl. lia.
Qed.

(** C7, as the code has it.  [EncodeDomainName] has no error to return and
    checks no length: for every name it returns the wire form, of the size
    that its first loop computes plus one, in which the length byte of a label
    is the length of the label modulo 256.  [ParseDomainName] reads the wire
    form back when every label has 1 to 191 bytes, whatever the length of the
    whole. *)
Theorem EncodeDomainName_checks_no_length (N : string) :
  EncodeDomainName N = Ok (wire_form N)
  /\ Z.of_nat (length (wire_form N)) = encoded_length N
  /\ (forall label, exists b,
        encode_label label = b :: String.list_byte_of_string label
        /\ byte_val b = strlen label mod 256)
  /\ (Forall ordinary_label (Split N ".") ->
      forall fuel, (length (Split N ".") < fuel)%nat ->
        ParseDomainName fuel (full (wire_form N)) 0
        = Ok (N, encoded_length N)).
Proof.
  split; [apply EncodeDomainName_wire|].
  split; [apply length_wire_form|].
  split.
  - intros label. exists (byte_of_Z (strlen label)).
    split; [reflexivity | apply byte_val_of_Z].
  - intros Hall fuel Hfuel. rewrite <- length_wire_form.
    unfold wire_form. rewrite filter_nonempty_id.
    + rewrite ParseDomainName_encode_labels by assumption.
      now rewrite Join_Split.
    + eapply Forall_impl; [exact Hall|]. unfold ordinary_label. lia.
Qed.

Lemma EncodeDomainName_checks_no_length_witness :
  Forall ordinary_label (Split label64 ".")
  /\ ParseDomainName 2 (full (wire_form label64)) 0 = Ok (label64, 66).
Proof.
  assert (H : Forall ordinary_label (Split label64 ".")).
  { repeat constructor; vm_compute; discriminate. }
  split; [exact H|].
  destruct (EncodeDomainName_checks_no_length label64) as (_ & _ & _ & Hd).
  apply (Hd H 2%nat). vm_compute. lia.
Defined.

(** The claim fails on both kinds of name: they are too long, and both are
    encoded, and decoded again, without an error. *)
Lemma EncodeDomainName_too_long_accepted :
  too_long label64 /\ too_long name320
  /\ (exists wire, EncodeDomainName label64 = Ok wire
        /\ ParseDomainName 2 (full wire) 0 = Ok (label64, 66))
  /\ (exists wire, EncodeDomainName name320 = Ok wire
        /\ ParseDomainName 6 (full wire) 0 = Ok (name320, 321)).
Proof.
  split; [left; constructor; vm_compute; reflexivity|].
  split; [right; vm_compute; reflexivity|].
  split; eexists; (split; [vm_compute; reflexivity|vm_compute; reflexivity]).
Qed.

(** ** C9: empty labels are skipped *)

Lemma filter_nonempty_Forall (ls : list string) :
  Forall (fun l => 1 <= strlen l) (List.filter nonempty ls).
Proof.
  induction ls as [|l ls IH]; [constructor|].
  rewrite filter_nonempty_cons.
  destruct (Z.ltb_spec 0 (strlen l)); [constructor; [lia|exact IH] | exact IH].
Qed.

Lemma filter_Forall (P : string -> Prop) (ls : list string) :
  Forall P ls -> Forall P (List.filter nonempty ls).
Proof.
  induction 1 as [|l ls Hl _ IH]; [constructor|].
  rewrite filter_nonempty_cons. destruct (0 <? strlen l); auto.
Qed.

Lemma filter_Split_normalize (s : string) :
  List.filter nonempty (Split (normalize s) ".")
  = List.filter nonempty (Split s ".").
Proof.
  unfold normalize.
  destruct (List.filter nonempty (Split s ".")) as [|l ls] eqn:E.
  - reflexivity.
  - rewrite Split_Join; [|discriminate|].
    + rewrite <- E. apply filter_nonempty_id, filter_nonempty_Forall.
    + rewrite <- E. apply filter_Forall, Split_no_sep.
Qed.

Lemma wire_form_normalize (s : string) :
  wire_form (normalize s) = wire_form s.
Proof. unfold wire_form. now rewrite filter_Split_normalize. Qed.

(** C9.  For every string, [EncodeDomainName] gives the same bytes as on the
    string with its empty labels removed, as on ["example.com."] and
    ["a..b"]; so decoding the encoding gives the normalized name, here for
    the names whose non-empty labels [ParseDomainName] reads as labels. *)
Theorem EncodeDomainName_skips_empty_labels (s : string) :
  EncodeDomainName s = EncodeDomainName (normalize s)
  /\ EncodeDomainName "example.com." = EncodeDomainName "example.com"
  /\ EncodeDomainName "a..b" = EncodeDomainName "a.b"
  /\ (Forall ordinary_label (List.filter nonempty (Split s ".")) ->
      exists wire,
        EncodeDomainName s = Ok wire /\
        forall fuel, (length (Split s ".") < fuel)%nat ->
          ParseDomainName fuel (full wire) 0
          = Ok (normalize s, Z.of_nat (length wire))).
Proof.
  split; [now rewrite !EncodeDomainName_wire, wire_form_normalize|].
  split; [reflexivity|]. split; [reflexivity|].
  intros Hall. exists (wire_form s). split; [apply EncodeDomainName_wire|].
  intros fuel Hfuel. unfold wire_form, normalize.
  apply ParseDomainName_encode_labels; [exact Hall|].
  eapply Nat.le_lt_trans; [|exact Hfuel]. apply List.filter_length_le.
Qed.

Lemma EncodeDomainName_skips_empty_labels_witness :
  Forall ordinary_label (List.filter nonempty (Split ".example..com." "."))
  /\ exists wire,
       EncodeDomainName ".example..com." = Ok wire /\
       forall fuel, (length (Split ".example..com." ".") < fuel)%nat ->
         ParseDomainName fuel (full wire) 0
         = Ok ("example.com", Z.of_nat (length wire)).
Proof.
  assert (H : Forall ordinary_label
                (List.filter nonempty (Split ".example..com." "."))).
  { repeat constructor; vm_compute; discriminate. }
  split; [exact H|].
  destruct (EncodeDomainName_skips_empty_labels ".example..com.")
    as (_ & _ & _ & Hd).
  exact (Hd H).
Defined.

(** ** C5: compression pointers *)

Lemma pointer_offset_value (b1 b2 : byte) :
  Z.lor (Z.shiftl (Z.land (byte_val b1) 63) 8) (byte_val b2)
  = pointer_target b1 b2.
Proof.
  unfold pointer_target.
  pose proof (byte_val_range b1) as H1. pose proof (byte_val_range b2) as H2.
  change 63 with (Z.ones 6). rewrite Z.land_ones by lia.
  rewrite Z.shiftl_mul_pow2 by lia. change (2 ^ 6) with 64.
  change (2 ^ 8) with 256.
  rewrite <- Z.lxor_lor, <- Z.add_nocarry_lxor; [reflexivity| |];
    (apply Z.bits_inj'; intros n Hn; rewrite Z.land_spec, Z.bits_0;
     destruct (Z.lt_ge_cases n 8);
     [ change 256 with (2 ^ 8); rewrite Z.mul_pow2_bits_low by lia;
       reflexivity
     | replace (byte_val b2) with (byte_val b2 mod 2 ^ 8)
         by (apply Z.mod_small; change (2 ^ 8) with 256; lia);
       rewrite Z.mod_pow2_bits_high by lia; apply andb_false_r ]).
Qed.

Lemma pointer_target_range (b1 b2 : byte) : 0 <= pointer_target b1 b2 < 16384.
Proof.
  unfold pointer_target.
  pose proof (byte_val_range b2). pose proof (Z.mod_pos_bound (byte_val b1) 64).
  lia.
Qed.

(** The step of the loop at a pointer. *)
Lemma ParseDomainName_loop_pointer (fuel : nat) (buf : slice) (off : Z)
    (labels : list string) (b1 b2 : byte) :
  index buf off = Ok b1 ->
  192 <= byte_val b1 ->
  index buf (off + 1) = Ok b2 ->
  ParseDomainName_loop (S fuel) buf off labels
  = (r ← ParseDomainName fuel buf (pointer_target b1 b2);
     Ok (pointer_join labels (fst r), off + 2)).
Proof.
  intros Hb1 Hptr Hb2. rewrite ParseDomainName_loop_step, Hb1.
  cbn [mbind result_bind].
  destruct (Z.eqb_spec (byte_val b1) 0); [lia|].
  destruct (Z.leb_spec 192 (byte_val b1)); [|lia].
  rewrite Hb2. cbn [mbind result_bind]. rewrite pointer_offset_value.
  unfold ParseDomainName.
  destruct (ParseDomainName_loop fuel buf (pointer_target b1 b2) [])
    as [[name off']| |]; cbn [mbind result_bind fst]; try reflexivity.
  replace (off + 1 + 1) with (off + 2) by lia.
  destruct labels; reflexivity.
Qed.

(** One pointer: where the labels [ls] are followed by a pointer and the
    name at its target decodes, the labels are joined to that name and the
    offset is the one after the pointer. *)
Lemma ParseDomainName_pointer (fuel : nat) (buf : slice)
    (pre post : list byte) (ls : list string) (b1 b2 : byte)
    (pointerName : string) (pointerEnd : Z) :
  arr buf = pre ++ encode_labels ls ++ b1 :: b2 :: post ->
  (length pre + length (encode_labels ls) + 2 <= len buf)%nat ->
  Forall ordinary_label ls ->
  192 <= byte_val b1 ->
  ParseDomainName fuel buf (pointer_target b1 b2)
  = Ok (pointerName, pointerEnd) ->
  ParseDomainName (length ls + S fuel) buf (Z.of_nat (length pre))
  = Ok (pointer_join ls pointerName,
        Z.of_nat (length pre) + Z.of_nat (length (encode_labels ls)) + 2).
Proof.
  intros Harr Hlen Hall Hptr Hname. unfold ParseDomainName.
  rewrite (ParseDomainName_loop_labels ls _ buf pre (b1 :: b2 :: post));
    [|exact Harr|lia|exact Hall].
  cbn [app].
  rewrite (ParseDomainName_loop_pointer fuel buf _ ls b1 b2);
    [|apply index_ok; [lia|]|exact Hptr|].
  - rewrite Hname. cbn [mbind result_bind fst]. do 2 f_equal. lia.
  - rewrite Harr, app_assoc. apply list_lookup_middle.
    now rewrite length_app.
  - replace (Z.of_nat (length pre + length (encode_labels ls)) + 1)
      with (Z.of_nat (S (length pre + length (encode_labels ls)))) by lia.
    apply index_ok; [lia|].
    rewrite Harr, app_assoc.
    change (b1 :: b2 :: post) with ([b1] ++ b2 :: post). rewrite app_assoc.
    apply list_lookup_middle. rewrite !length_app. simpl. lia.
Qed.

(** ** C2: pointers that do not point backwards *)

(** A pointer to its own offset: the recursive call meets the same pointer
    again, at every depth. *)
Lemma ParseDomainName_self_pointer (buf : slice) (off : Z) (b1 b2 : byte) :
  index buf off = Ok b1 ->
  192 <= byte_val b1 ->
  index buf (off + 1) = Ok b2 ->
  pointer_target b1 b2 = off ->
  forall fuel, ParseDomainName fuel buf off = Diverge.
Proof.
  intros Hb1 Hptr Hb2 Hself fuel. unfold ParseDomainName.
  induction fuel as [|fuel IH]; [reflexivity|].
  rewrite (ParseDomainName_loop_pointer fuel buf off [] b1 b2) by assumption.
  unfold ParseDomainName. rewrite Hself, IH. reflexivity.
Qed.

(** C2, as the code has it.  [ParseDomainName] compares no pointer with its
    own position and has no error to return.  At a pointer, whatever its
    target, the name that decodes at the target is returned with the offset
    after the pointer; and a pointer whose target is its own offset is
    followed without end: no amount of fuel gives a result. *)
Theorem ParseDomainName_pointer_unchecked (buf : slice) (off : Z)
    (b1 b2 : byte) :
  index buf off = Ok b1 ->
  192 <= byte_val b1 ->
  index buf (off + 1) = Ok b2 ->
  (forall fuel name pointerEnd,
      ParseDomainName fuel buf (pointer_target b1 b2) = Ok (name, pointerEnd) ->
      ParseDomainName (S fuel) buf off = Ok (name, off + 2))
  /\ (pointer_target b1 b2 = off ->
      forall fuel, ParseDomainName fuel buf off = Diverge).
Proof.
  intros Hb1 Hptr Hb2. split.
  - intros fuel name pointerEnd Hname. unfold ParseDomainName at 1.
    rewrite (ParseDomainName_loop_pointer fuel buf off [] b1 b2)
      by assumption.
    now rewrite Hname.
  - intros Hself. now apply (ParseDomainName_self_pointer buf off b1 b2).
Qed.

Lemma ParseDomainName_pointer_unchecked_witness :
  ParseDomainName 2 forward_pointer 0 = Ok ("", 2)
  /\ forall fuel, ParseDomainName fuel self_pointer 0 = Diverge.
Proof.
  split.
  - refine (proj1 (ParseDomainName_pointer_unchecked forward_pointer 0
                     xc0 x02 _ _ _) 1%nat "" 3 _);
      vm_compute; try reflexivity; discriminate.
  - refine (proj2 (ParseDomainName_pointer_unchecked self_pointer 0
                     xc0 x00 _ _ _) _);
      vm_compute; try reflexivity; discriminate.
Defined.

(** The claim fails on a pointer to itself, whose decoding ends neither with
    a result nor with a panic, and on a forward pointer, which is followed
    and not refused. *)
Lemma ParseDomainName_self_pointer_never_returns :
  ~ (exists fuel, ParseDomainName fuel self_pointer 0 <> Diverge)
  /\ ParseDomainName 2 forward_pointer 0 = Ok ("", 2).
Proof.
  split; [|reflexivity].
  intros [fuel Hfuel]. apply Hfuel.
  apply (ParseDomainName_self_pointer self_pointer 0 xc0 x00);
    vm_compute; try reflexivity; discriminate.
Qed.

(** A pointer to a smaller offset than its own does not end the recursion
    either, when the name at that offset runs into the pointer again. *)
Lemma ParseDomainName_backward_pointer_cycle :
  forall fuel, ParseDomainName fuel backward_cycle 0 = Diverge.
Proof.
  intros fuel. induction fuel as [fuel IH] using (well_founded_induction lt_wf).
  destruct fuel as [|[|fuel]]; [reflexivity|reflexivity|].
  unfold ParseDomainName.
  rewrite (ParseDomainName_reserved_or_short_label (S fuel) backward_cycle 0
             [] x03 (mkSlice [x77; x77; x77; xc0; x00] 3)%byte);
    [|reflexivity|vm_compute; split; [discriminate|reflexivity]|reflexivity].
  rewrite (ParseDomainName_loop_pointer fuel backward_cycle 4 _ xc0 x00);
    [|reflexivity|vm_compute; discriminate|reflexivity].
  change (pointer_target xc0 x00) with 0. rewrite IH by lia. reflexivity.
Qed.

(** ** Two-byte fields *)

Lemma lor_shiftl8 (a y : Z) :
  0 <= y < 256 -> Z.lor (Z.shiftl a 8) y = a * 256 + y.
Proof.
  intros Hy. rewrite Z.shiftl_mul_pow2 by lia. change (2 ^ 8) with 256.
  rewrite <- Z.lxor_lor, <- Z.add_nocarry_lxor; [reflexivity| |];
    (apply Z.bits_inj'; intros n Hn; rewrite Z.land_spec, Z.bits_0;
     destruct (Z.lt_ge_cases n 8);
     [ change 256 with (2 ^ 8); rewrite Z.mul_pow2_bits_low by lia;
       reflexivity
     | replace y with (y mod 2 ^ 8)
         by (apply Z.mod_small; change (2 ^ 8) with 256; lia);
       rewrite Z.mod_pow2_bits_high by lia; apply andb_false_r ]).
Qed.

Lemma be16_range (b0 b1 : byte) : is_uint16 (be16 b0 b1).
Proof.
  unfold is_uint16, be16.
  pose proof (byte_val_range b0). pose proof (byte_val_range b1). lia.
Qed.

Lemma be16_PutUint16 (v : Z) :
  is_uint16 v -> be16 (byte_of_Z (Z.shiftr v 8)) (byte_of_Z v) = v.
Proof.
  unfold is_uint16, be16. intros Hv. rewrite !byte_val_of_Z.
  rewrite Z.shiftr_div_pow2 by lia. change (2 ^ 8) with 256.
  rewrite (Z.mod_small (v / 256)) by (split; [apply Z.div_pos|
    apply Z.div_lt_upper_bound]; lia).
  pose proof (Z.div_mod v 256). lia.
Qed.

(** A two-byte window of a buffer, read by [Uint16]. *)
Lemma Uint16_window {B : Type} (buf : slice) (lo : Z) (b0 b1 : byte)
    (k : Z -> result B) :
  0 <= lo ->
  arr buf !! Z.to_nat lo = Some b0 ->
  arr buf !! S (Z.to_nat lo) = Some b1 ->
  (w ← reslice buf lo (lo + 2); v ← Uint16 w; k v) = k (be16 b0 b1).
Proof.
  intros Hlo H0 H1.
  pose proof (lookup_lt_Some _ _ _ H1) as Hlen.
  replace lo with (Z.of_nat (Z.to_nat lo)) at 1 2 by lia.
  change 2 with (Z.of_nat 2). rewrite reslice_ok by (unfold cap; lia).
  cbn [mbind result_bind]. unfold Uint16, index. cbn [len arr Z.of_nat].
  cbn [Z.leb Z.ltb Z.compare Pos.compare Pos.compare_cont andb Z.to_nat
       Pos.to_nat Pos.iter_op Nat.add].
  rewrite !lookup_drop, Nat.add_0_r, Nat.add_1_r, H0, H1.
  change (1 <? Z.of_nat 2) with true. change (0 <? Z.of_nat 2) with true.
  cbn [mbind result_bind]. f_equal.
  rewrite Z.lor_comm. apply lor_shiftl8, byte_val_range.
Qed.

(** ** The header codec *)

Lemma ParseHeader_bytes (buf : slice)
    (b0 b1 b2 b3 b4 b5 b6 b7 b8 b9 b10 b11 : byte) (rest : list byte) :
  arr buf
  = b0 :: b1 :: b2 :: b3 :: b4 :: b5 :: b6 :: b7 :: b8 :: b9 :: b10 :: b11
       :: rest ->
  ParseHeader buf
  = Ok (mkHeader (be16 b0 b1) (be16 b2 b3) (be16 b4 b5) (be16 b6 b7)
                 (be16 b8 b9) (be16 b10 b11)).
Proof.
  intros Harr. unfold ParseHeader.
  change 4 with (2 + 2). change 6 with (4 + 2). change 8 with (6 + 2).
  change 10 with (8 + 2). change 12 with (10 + 2).
  rewrite (Uint16_window buf 0 b0 b1) by (rewrite ?Harr; done).
  rewrite (Uint16_window buf 2 b2 b3) by (rewrite ?Harr; done).
  rewrite (Uint16_window buf 4 b4 b5) by (rewrite ?Harr; done).
  rewrite (Uint16_window buf 6 b6 b7) by (rewrite ?Harr; done).
  rewrite (Uint16_window buf 8 b8 b9) by (rewrite ?Harr; done).
  rewrite (Uint16_window buf 10 b10 b11) by (rewrite ?Harr; done).
  reflexivity.
Qed.

Lemma ParseHeader_Marshal (h : Header) :
  Header_wf h -> ParseHeader (full (Header_Marshal h)) = Ok h.
Proof.
  intros (Hid & Hflag & Hqd & Han & Hns & Har).
  unfold Header_Marshal, PutUint16. cbn [app].
  erewrite ParseHeader_bytes by reflexivity.
  rewrite !be16_PutUint16 by assumption. now destruct h.
Qed.

Lemma twelve_bytes (l : list byte) :
  (12 <= length l)%nat ->
  exists b0 b1 b2 b3 b4 b5 b6 b7 b8 b9 b10 b11 rest,
    l = b0 :: b1 :: b2 :: b3 :: b4 :: b5 :: b6 :: b7 :: b8 :: b9 :: b10
           :: b11 :: rest.
Proof.
  intros H.
  do 12 (destruct l as [|? l]; [simpl in H; lia|]).
  repeat eexists.
Qed.

(** [ParseRequest] needs 12 bytes of capacity, not of length. *)
Lemma ParseRequest_capacity (buf : slice) :
  (12 <= cap buf)%nat ->
  exists h, ParseRequest buf = Ok (mkRequest h nil_interface nil_interface)
            /\ Header_wf h.
Proof.
  intros Hcap. unfold ParseRequest.
  change 0 with (Z.of_nat 0). change 12 with (Z.of_nat 0 + Z.of_nat 12).
  rewrite reslice_ok by lia. cbn [mbind result_bind drop].
  destruct (twelve_bytes (arr buf) Hcap)
    as (b0 & b1 & b2 & b3 & b4 & b5 & b6 & b7 & b8 & b9 & b10 & b11 & rest
        & Harr).
  rewrite (ParseHeader_bytes _ b0 b1 b2 b3 b4 b5 b6 b7 b8 b9 b10 b11 rest)
    by exact Harr.
  eexists. split; [reflexivity|].
  repeat split; apply be16_range.
Qed.

Lemma ParseRequest_short (buf : slice) :
  (cap buf < 12)%nat -> ParseRequest buf = Panic SliceBoundsOutOfRange.
Proof.
  intros Hcap. unfold ParseRequest, reslice.
  destruct (Z.leb_spec 12 (Z.of_nat (cap buf))); [lia|]. reflexivity.
Qed.

Lemma ParseRequest_wf (buf : slice) (request : Request) :
  ParseRequest buf = Ok request ->
  Header_wf (Request_Header request)
  /\ Request_Question request = nil_interface
  /\ Request_Answer request = nil_interface.
Proof.
  intros H. destruct (Nat.le_gt_cases 12 (cap buf)) as [Hcap | Hcap].
  - destruct (ParseRequest_capacity buf Hcap) as (h & Hh & Hwf).
    rewrite Hh in H. injection H as <-. auto.
  - rewrite ParseRequest_short in H by exact Hcap. discriminate.
Qed.

(** ** The flags word *)

Lemma set_subfield_testbit (f : subfield) (w v n : Z) :
  0 <= shift f -> 0 <= width f -> 0 <= n ->
  Z.testbit (set_subfield f w v) n
  = if (shift f <=? n) && (n <? shift f + width f)
    then Z.testbit v (n - shift f)
    else Z.testbit w n.
Proof.
  intros Hs Hw Hn. unfold set_subfield.
  rewrite Z.lor_spec, Z.ldiff_spec, !Z.shiftl_spec, Z.land_spec by lia.
  destruct (Z.leb_spec (shift f) n); cbn [andb].
  - rewrite !Z.testbit_ones_nonneg by lia.
    destruct (Z.ltb_spec n (shift f + width f)),
             (Z.ltb_spec (n - shift f) (width f)); try lia.
    + cbn [negb]. now rewrite andb_false_r, andb_true_r.
    + cbn [negb]. now rewrite andb_true_r, andb_false_r, orb_false_r.
  - rewrite !(Z.testbit_neg_r _ (n - shift f)) by lia.
    cbn [negb]. now rewrite andb_true_r, orb_false_r.
Qed.

Lemma get_subfield_testbit (f : subfield) (w n : Z) :
  0 <= shift f -> 0 <= width f -> 0 <= n ->
  Z.testbit (get_subfield f w) n
  = Z.testbit w (n + shift f) && (n <? width f).
Proof.
  intros Hs Hw Hn. unfold get_subfield.
  now rewrite Z.land_spec, Z.shiftr_spec, Z.testbit_ones_nonneg by lia.
Qed.

(** Setting a sub-field leaves a sub-field that shares no bit with it as it
    was. *)
Lemma get_set_subfield_other (f g : subfield) (w v : Z) :
  subfield_wf f -> subfield_wf g -> disjoint_subfields f g ->
  get_subfield g (set_subfield f w v) = get_subfield g w.
Proof.
  intros (Hsf & Hwf & _) (Hsg & Hwg & _) Hdis.
  apply Z.bits_inj'. intros n Hn.
  rewrite !get_subfield_testbit, set_subfield_testbit by lia.
  destruct (Z.ltb_spec n (width g)); [|now rewrite !andb_false_r].
  destruct (Z.leb_spec (shift f) (n + shift g)),
           (Z.ltb_spec (n + shift g) (shift f + width f));
    cbn [andb]; try reflexivity.
  unfold disjoint_subfields in Hdis. lia.
Qed.

(** Reading a sub-field after setting it gives the value set, cut to the
    width of the sub-field. *)
Lemma get_set_subfield_same (f : subfield) (w v : Z) :
  subfield_wf f ->
  get_subfield f (set_subfield f w v) = v mod 2 ^ width f.
Proof.
  intros (Hsf & Hwf & _). rewrite <- Z.land_ones by lia.
  apply Z.bits_inj'. intros n Hn.
  rewrite get_subfield_testbit, set_subfield_testbit, Z.land_spec,
    Z.testbit_ones_nonneg by lia.
  destruct (Z.ltb_spec n (width f)); [|now rewrite !andb_false_r].
  destruct (Z.leb_spec (shift f) (n + shift f)),
           (Z.ltb_spec (n + shift f) (shift f + width f)); try lia.
  cbn [andb]. f_equal. f_equal. lia.
Qed.

Lemma uint16_bits (w : Z) :
  is_uint16 w <-> 0 <= w /\ forall n, 16 <= n -> Z.testbit w n = false.
Proof.
  unfold is_uint16. split.
  - intros Hw. split; [lia|]. intros n Hn.
    rewrite <- (Z.mod_small w (2 ^ 16)) by (change (2 ^ 16) with 65536; lia).
    apply Z.mod_pow2_bits_high. lia.
  - intros [H0 Hbits]. split; [exact H0|].
    assert (Hw : w = w mod 2 ^ 16).
    { apply Z.bits_inj'. intros n Hn. destruct (Z.lt_ge_cases n 16).
      - now rewrite Z.mod_pow2_bits_low.
      - rewrite Z.mod_pow2_bits_high by lia. now apply Hbits. }
    rewrite Hw. change 65536 with (2 ^ 16). apply Z.mod_pos_bound. lia.
Qed.

(** The word stays a 16-bit word. *)
Lemma set_subfield_uint16 (f : subfield) (w v : Z) :
  subfield_wf f -> is_uint16 w -> is_uint16 (set_subfield f w v).
Proof.
  intros (Hsf & Hwf & H16) Hw. apply uint16_bits in Hw as [Hw0 Hbits].
  apply uint16_bits. split.
  - unfold set_subfield. apply Z.lor_nonneg. split.
    + apply Z.ldiff_nonneg. now left.
    + apply Z.shiftl_nonneg, Z.land_nonneg. right.
      rewrite Z.ones_equiv.
      pose proof (Z.pow_pos_nonneg 2 (width f) eq_refl Hwf). lia.
  - intros n Hn. rewrite set_subfield_testbit by lia.
    destruct (Z.leb_spec (shift f) n), (Z.ltb_spec n (shift f + width f));
      cbn [andb]; try lia; now apply Hbits.
Qed.

Lemma subfields_wf : Forall subfield_wf subfields.
Proof. repeat constructor; vm_compute; discriminate. Qed.

Lemma subfields_disjoint (f g : subfield) :
  f ∈ subfields -> g ∈ subfields -> f <> g -> disjoint_subfields f g.
Proof.
  unfold subfields. intros Hf Hg Hne.
  repeat (apply elem_of_cons in Hf as [-> | Hf]);
    try (now apply elem_of_nil in Hf);
    repeat (apply elem_of_cons in Hg as [-> | Hg]);
    try (now apply elem_of_nil in Hg);
    try congruence;
    unfold disjoint_subfields; cbn [shift width QR_field Opcode_field AA_field
      TC_field RD_field RA_field Z_field RCODE_field]; lia.
Qed.

(** ** C8: the header round trip and the flag accessors *)

(** C8.  Decoding the encoding of a header, whose fields are 16-bit values,
    gives the header back.  On its flags word, setting a sub-field leaves
    every other sub-field as it was, and reading the sub-field gives the
    value set; in particular [SetQR] changes bit 15 and no other bit, so
    Opcode, AA, TC, RD, RA, Z and RCODE are unchanged. *)
Theorem Header_roundtrip_and_flag_frame (h : Header) :
  Header_wf h ->
  ParseHeader (full (Header_Marshal h)) = Ok h
  /\ (forall f g v, f ∈ subfields -> g ∈ subfields -> f <> g ->
        get_subfield g (set_subfield f (Flag h) v) = get_subfield g (Flag h))
  /\ (forall f v, f ∈ subfields ->
        get_subfield f (set_subfield f (Flag h) v) = v mod 2 ^ width f
        /\ is_uint16 (set_subfield f (Flag h) v))
  /\ (forall qr,
        get_subfield QR_field (SetQR (Flag h) qr) = (if qr then 1 else 0)
        /\ Forall (fun g => get_subfield g (SetQR (Flag h) qr)
                            = get_subfield g (Flag h)) other_subfields
        /\ forall n, n <> 15 ->
             Z.testbit (SetQR (Flag h) qr) n = Z.testbit (Flag h) n).
Proof.
  intros Hwf. split; [now apply ParseHeader_Marshal|].
  pose proof subfields_wf as Hall. rewrite Forall_forall in Hall.
  split; [|split].
  - intros f g v Hf Hg Hne.
    apply get_set_subfield_other; auto using subfields_disjoint.
  - intros f v Hf. split.
    + apply get_set_subfield_same; auto.
    + apply set_subfield_uint16; auto. apply Hwf.
  - intros qr. unfold SetQR. split; [|split].
    + rewrite get_set_subfield_same by (apply Hall; repeat constructor).
      now destruct qr.
    + unfold other_subfields.
      repeat constructor;
        (apply get_set_subfield_other;
         [apply Hall; repeat constructor | apply Hall; repeat constructor
         | unfold disjoint_subfields; simpl; lia]).
    + intros n Hn. destruct (Z.lt_ge_cases n 0).
      * now rewrite !Z.testbit_neg_r.
      * rewrite set_subfield_testbit by (simpl; lia).
        cbn [shift width QR_field].
        destruct (Z.leb_spec 15 n), (Z.ltb_spec n (15 + 1)); cbn [andb];
          try reflexivity; lia.
Qed.

Lemma Header_roundtrip_and_flag_frame_witness :
  ParseHeader (full (Header_Marshal (mkHeader 4660 256 1 0 0 0)))
  = Ok (mkHeader 4660 256 1 0 0 0)
  /\ get_subfield RD_field (SetQR 256 true) = 1
  /\ SetQR 256 true = 33024.
Proof.
  assert (Hwf : Header_wf (mkHeader 4660 256 1 0 0 0))
    by (repeat split; vm_compute; discriminate).
  destruct (Header_roundtrip_and_flag_frame _ Hwf) as (Hrt & _ & _ & Hqr).
  split; [exact Hrt|]. split; [|reflexivity].
  destruct (Hqr true) as (_ & Hothers & _).
  rewrite Forall_forall in Hothers.
  exact (Hothers RD_field ltac:(repeat constructor)).
Defined.

(** ** C4: the response *)

Lemma length_Header_Marshal (h : Header) : length (Header_Marshal h) = 12%nat.
Proof. reflexivity. Qed.

Lemma Listen_respond_spec (request : Request) :
  let header :=
    mkHeader (ID (Request_Header request)) 32768
             (QDCount (Request_Header request))
             (ANCount (Request_Header request))
             (NSCount (Request_Header request))
             (ARCount (Request_Header request)) in
  Listen_respond request
  = Ok (header, Header_Marshal header ++ replicate 500 x00).
Proof.
  intros header. unfold Listen_respond.
  change (NewFlag (full [x00; x00])) with (@Ok FlagWord 0).
  cbn [mbind result_bind ID Flag QDCount ANCount NSCount ARCount].
  change (SetQR 0 true) with 32768. fold header.
  rewrite copy_to_ok by (unfold make; rewrite length_replicate; lia).
  cbn [mbind result_bind]. reflexivity.
Qed.

(** C4.  For every request that [ParseRequest] returns, the loop of [Listen]
    builds a response of 512 bytes; its first 12 bytes are the encoding of the
    response header, and decode to it; the ID and the four counts of the
    response header are those of the request header, its QR bit is 1 and its
    Opcode, AA, TC, RD, RA, Z and RCODE are 0; the other 500 bytes are 0. *)
Theorem Listen_response_header (buf : slice) (request : Request) :
  ParseRequest buf = Ok request ->
  exists header response,
    Listen_respond request = Ok (header, response)
    /\ length response = 512%nat
    /\ take 12 response = Header_Marshal header
    /\ drop 12 response = replicate 500 x00
    /\ ParseHeader (full (take 12 response)) = Ok header
    /\ ID header = ID (Request_Header request)
    /\ QDCount header = QDCount (Request_Header request)
    /\ ANCount header = ANCount (Request_Header request)
    /\ NSCount header = NSCount (Request_Header request)
    /\ ARCount header = ARCount (Request_Header request)
    /\ get_subfield QR_field (Flag header) = 1
    /\ Forall (fun g => get_subfield g (Flag header) = 0) other_subfields.
Proof.
  intros Hparse. apply ParseRequest_wf in Hparse as (Hwf & _ & _).
  pose proof (Listen_respond_spec request) as Hr. cbn zeta in Hr.
  eexists. eexists. split; [exact Hr|].
  assert (Htake : forall m : list byte,
             length m = 12%nat -> take 12 (m ++ replicate 500 x00) = m)
    by (intros m Hm; now apply take_app_length').
  split; [rewrite length_app, length_replicate; reflexivity|].
  split; [now apply Htake|].
  split; [now apply drop_app_length'|].
  split.
  - rewrite Htake by reflexivity. apply ParseHeader_Marshal.
    destruct Hwf as (Hid & _ & Hqd & Han & Hns & Har).
    repeat split; try apply Hid; try apply Hqd; try apply Han;
      try apply Hns; try apply Har; vm_compute; discriminate.
  - repeat split. repeat constructor.
Qed.

Lemma Listen_response_header_witness :
  exists header response,
    Listen_respond
      (mkRequest (mkHeader 4660 0 1 0 0 0) nil_interface nil_interface)
    = Ok (header, response)
    /\ length response = 512%nat
    /\ take 12 response = Header_Marshal header
    /\ drop 12 response = replicate 500 x00
    /\ ParseHeader (full (take 12 response)) = Ok header
    /\ ID header = 4660
    /\ QDCount header = 1
    /\ ANCount header = 0
    /\ NSCount header = 0
    /\ ARCount header = 0
    /\ get_subfield QR_field (Flag header) = 1
    /\ Forall (fun g => get_subfield g (Flag header) = 0) other_subfields.
Proof.
  apply (Listen_response_header (full scenario_datagram)).
  vm_compute. reflexivity.
Defined.

(** ** C3: the end-to-end scenario *)

(** C3, as the code has it.  On the datagram of the scenario, [ParseRequest]
    gives a request whose header has ID 0x1234, no flag, one question and no
    other record, and whose [Question] and [Answer] are [nil]: it reads the
    12 bytes of the header and nothing else.  [ParseQuestion], which it does
    not call, gives at offset 12 of the same datagram the name
    ["codecrafters.io"], type A and class 1, and the offset 33, the end of the
    datagram. *)
Theorem ParseRequest_scenario :
  ParseRequest (full scenario_datagram)
  = Ok (mkRequest (mkHeader 4660 0 1 0 0 0) nil_interface nil_interface)
  /\ forall fuel,
       ParseQuestion (3 + fuel) (full scenario_datagram) 12
       = Ok (mkQuestion "codecrafters.io" A 1, 33).
Proof.
  split; [vm_compute; reflexivity|].
  intros fuel. vm_compute. reflexivity.
Qed.

(** The claim fails: the request that [ParseRequest] returns on the datagram
    of the scenario does not hold the question. *)
Lemma ParseRequest_leaves_question_empty :
  ~ exists request,
      ParseRequest (full scenario_datagram) = Ok request
      /\ ID (Request_Header request) = 4660
      /\ Request_Question request = boxed_Question scenario_question.
Proof.
  intros (request & Hparse & _ & Hq).
  apply ParseRequest_wf in Hparse as (_ & Hnil & _). congruence.
Qed.

(** ** C6: malformed datagrams *)

Lemma length_ReadFromUDP (buf payload : list byte) :
  length (fst (ReadFromUDP buf payload)) = length buf.
Proof. unfold ReadFromUDP. cbn [fst]. apply length_inserts. Qed.

(** One turn of the loop on a receive buffer of 512 bytes: the window
    [buf[:size]] has the capacity of the buffer, so the parse gets its 12
    bytes whatever [size] is, and a response is built. *)
Lemma Listen_turn_ok (buf payload : list byte) :
  length buf = 512%nat ->
  exists request header response,
    Listen_turn buf payload = Ok (fst (ReadFromUDP buf payload), response)
    /\ ParseRequest (mkSlice (fst (ReadFromUDP buf payload))
                             (Nat.min (length payload) 512)) = Ok request
    /\ Listen_respond request = Ok (header, response)
    /\ length response = 512%nat.
Proof.
  intros Hbuf. unfold Listen_turn.
  pose proof (length_ReadFromUDP buf payload) as Hlen.
  unfold ReadFromUDP in *. cbn [fst] in *.
  set (buf' := list_inserts 0 payload buf) in *.
  change 0 with (Z.of_nat 0).
  replace (Z.of_nat (length payload) `min` Z.of_nat (length buf))
    with (Z.of_nat 0 + Z.of_nat (Nat.min (length payload) 512)) by lia.
  rewrite reslice_ok by (unfold cap, full; cbn [arr]; lia).
  cbn [mbind result_bind full arr]. change (drop 0 buf') with buf'.
  destruct (ParseRequest_capacity
              (mkSlice buf' (Nat.min (length payload) 512)))
    as (h & Hparse & Hwf); [unfold cap; cbn [arr]; lia|].
  pose proof (Listen_respond_spec
                (mkRequest h nil_interface nil_interface)) as Hresp.
  cbn zeta in Hresp.
  eexists. eexists. eexists.
  rewrite Hparse. cbn [mbind result_bind].
  rewrite Hresp. cbn [mbind result_bind snd].
  repeat split.
Qed.

Lemma Listen_loop_answers (payloads : list (list byte)) :
  forall buf, length buf = 512%nat ->
    exists sent,
      Listen_loop buf (map (fun payload => Datagram payload true) payloads)
      = (sent, Serving)
      /\ length sent = length payloads
      /\ Forall (fun response => length response = 512%nat) sent.
Proof.
  induction payloads as [|payload payloads IH]; intros buf Hbuf.
  - exists []. repeat split. constructor.
  - destruct (Listen_turn_ok buf payload Hbuf)
      as (request & header & response & Hturn & _ & _ & Hlen).
    destruct (IH (fst (ReadFromUDP buf payload))) as (sent & Hloop & Hn & Hall).
    { now rewrite length_ReadFromUDP. }
    exists (response :: sent). cbn [map Listen_loop].
    rewrite Hturn, Hloop. repeat split.
    + simpl. now rewrite Hn.
    + now constructor.
Qed.

Lemma Listen_loop_never_crashes (turns : list turn) :
  forall buf, length buf = 512%nat ->
    (snd (Listen_loop buf turns) = Serving
     \/ snd (Listen_loop buf turns) = Returned)
    /\ Forall (fun response => length response = 512%nat)
              (fst (Listen_loop buf turns)).
Proof.
  induction turns as [|[|payload write_ok] turns IH]; intros buf Hbuf.
  - split; [now left | constructor].
  - split; [now right | constructor].
  - destruct (Listen_turn_ok buf payload Hbuf)
      as (request & header & response & Hturn & _ & _ & Hlen).
    cbn [Listen_loop]. rewrite Hturn.
    destruct write_ok; [|split; [now right | constructor]].
    destruct (IH (fst (ReadFromUDP buf payload))) as [Hst Hall].
    { now rewrite length_ReadFromUDP. }
    destruct (Listen_loop (fst (ReadFromUDP buf payload)) turns) as [sent st].
    cbn [fst snd] in *. split; [exact Hst | now constructor].
Qed.

(** The claim fails: a datagram of three bytes, and one whose length byte
    claims 63 bytes where one remains, are not dropped; each is answered. *)
Lemma Listen_does_not_drop_malformed :
  fst (Listen [Datagram short_datagram true])
  = [[x12; x34; x80] ++ replicate 509 x00]
  /\ fst (Listen [Datagram truncated_label_datagram true])
     = [[x12; x34; x80; x00; x00; x01] ++ replicate 506 x00]
  /\ fst (Listen [Datagram short_datagram true]) <> []
  /\ fst (Listen [Datagram truncated_label_datagram true]) <> [].
Proof.
  split; [vm_compute; reflexivity|].
  split; [vm_compute; reflexivity|].
  split; vm_compute; discriminate.
Qed.

(** The header of a short datagram is completed by the bytes that an earlier
    datagram left in the receive buffer: after the datagram of the scenario,
    a datagram of one byte is answered with the count of one question. *)
Lemma Listen_short_datagram_reads_stale_bytes :
  fst (Listen [Datagram scenario_datagram true; Datagram [xab] true])
  = [[x12; x34; x80; x00; x00; x01] ++ replicate 506 x00;
     [xab; x34; x80; x00; x00; x01] ++ replicate 506 x00].
Proof. vm_compute. reflexivity. Qed.

(** On a slice that has fewer than 12 bytes of capacity, as a caller other
    than [Listen] could pass, [ParseRequest] panics. *)
Lemma ParseRequest_short_slice_panics :
  ParseRequest (full short_datagram) = Panic SliceBoundsOutOfRange.
Proof. reflexivity. Qed.

(** The question of the scenario, marshalled, is the part of the datagram of
    the scenario that follows the header. *)
Lemma Question_Marshal_scenario :
  Question_Marshal scenario_question = Ok (drop 12 scenario_datagram).
Proof. vm_compute. reflexivity. Qed.

(** [Request.Marshal] writes the header at the front of 512 zero bytes. *)
Lemma Request_Marshal_spec (m : Request) :
  Request_Marshal m
  = Ok (Header_Marshal (Request_Header m) ++ replicate 500 x00).
Proof. reflexivity. Qed.

(** * Further properties of the package *)

(** ** [ParseDomainName]: offsets, termination, truncation *)

Lemma index_inv (buf : slice) (i : Z) (b : byte) :
  index buf i = Ok b ->
  0 <= i < Z.of_nat (len buf) /\ arr buf !! Z.to_nat i = Some b.
Proof.
  unfold index. intros H.
  destruct (Z.leb_spec 0 i), (Z.ltb_spec i (Z.of_nat (len buf)));
    cbn [andb] in H; try discriminate.
  destruct (arr buf !! Z.to_nat i) as [b'|]; [|discriminate].
  injection H as ->. split; [lia | reflexivity].
Qed.

Lemma ParseDomainName_loop_offset (fuel : nat) :
  forall (buf : slice) (cur : Z) (labels : list string) (name : string)
         (newOffset : Z),
    ParseDomainName_loop fuel buf cur labels = Ok (name, newOffset) ->
    0 <= cur < newOffset /\ newOffset <= Z.of_nat (len buf).
Proof.
  induction fuel as [|fuel IH]; intros buf cur labels name newOffset H;
    [discriminate|].
  rewrite ParseDomainName_loop_step in H.
  destruct (index buf cur) as [b| |] eqn:Hb; cbn [mbind result_bind] in H;
    try discriminate.
  apply index_inv in Hb as [Hcur _].
  pose proof (byte_val_range b) as Hrange.
  destruct (byte_val b =? 0); [injection H as _ <-; lia|].
  destruct (192 <=? byte_val b).
  - destruct (index buf (cur + 1)) as [b'| |] eqn:Hb';
      cbn [mbind result_bind] in H; try discriminate.
    apply index_inv in Hb' as [Hcur' _].
    destruct (ParseDomainName_loop fuel buf _ []) as [r| |];
      cbn [mbind result_bind] in H; try discriminate.
    destruct (0 <? Z.of_nat (length labels)); injection H as _ <-; lia.
  - destruct (reslice buf (cur + 1) (cur + 1 + byte_val b)) as [s| |];
      cbn [mbind result_bind] in H; try discriminate.
    apply IH in H. lia.
Qed.

(** X1.  Where [ParseDomainName] returns, the start offset was inside the buffer
    and the offset returned is after it and at most the length of the buffer:
    a name takes at least one byte and is never read past the slice when the
    decoding succeeds by a terminator or a pointer. *)
Theorem ParseDomainName_offset_in_buffer (fuel : nat) (buf : slice)
    (offset : Z) (name : string) (newOffset : Z) :
  ParseDomainName fuel buf offset = Ok (name, newOffset) ->
  0 <= offset < newOffset /\ newOffset <= Z.of_nat (len buf).
Proof. apply ParseDomainName_loop_offset. Qed.

Lemma ParseDomainName_offset_in_buffer_witness :
  0 <= 15 < 21 /\ 21 <= Z.of_nat (len compressed_message).
Proof.
  apply (ParseDomainName_offset_in_buffer 6 compressed_message 15
           "www.example.com" 21).
  vm_compute. reflexivity.
Defined.

Lemma pointer_free_lookup (buf : slice) (i : Z) (b : byte) :
  pointer_free buf -> index buf i = Ok b -> byte_val b < 192.
Proof.
  unfold pointer_free, bytes_of. intros Hfree Hb.
  apply index_inv in Hb as [Hi Hb].
  rewrite Forall_lookup in Hfree. apply (Hfree (Z.to_nat i)).
  rewrite lookup_take_lt by lia. exact Hb.
Qed.

Lemma index_ends (buf : slice) (i : Z) : index buf i <> Diverge.
Proof.
  unfold index. destruct ((0 <=? i) && (i <? Z.of_nat (len buf)));
    [destruct (arr buf !! Z.to_nat i)|]; discriminate.
Qed.

Lemma reslice_ends (buf : slice) (lo hi : Z) : reslice buf lo hi <> Diverge.
Proof.
  unfold reslice.
  destruct ((0 <=? lo) && (lo <=? hi) && (hi <=? Z.of_nat (cap buf)));
    discriminate.
Qed.

Lemma ParseDomainName_loop_terminates (fuel : nat) :
  forall (buf : slice) (cur : Z) (labels : list string),
    pointer_free buf ->
    (0 < fuel)%nat ->
    Z.of_nat (len buf) - cur < Z.of_nat fuel ->
    ParseDomainName_loop fuel buf cur labels <> Diverge.
Proof.
  induction fuel as [|fuel IH]; intros buf cur labels Hfree Hpos Hfuel;
    [lia|].
  rewrite ParseDomainName_loop_step.
  destruct (index buf cur) as [b| |] eqn:Hb; cbn [mbind result_bind];
    [|discriminate|now apply index_ends in Hb].
  pose proof (pointer_free_lookup buf cur b Hfree Hb) as Hlt.
  apply index_inv in Hb as [Hcur _].
  pose proof (byte_val_range b) as Hrange.
  destruct (Z.eqb_spec (byte_val b) 0); [discriminate|].
  destruct (Z.leb_spec 192 (byte_val b)); [lia|].
  destruct (reslice buf (cur + 1) (cur + 1 + byte_val b)) as [s| |] eqn:Hs;
    cbn [mbind result_bind];
    [|discriminate|now apply reslice_ends in Hs].
  apply IH; [exact Hfree|lia|lia].
Qed.

(** X2.  On a buffer with no byte of value 192 or more, [ParseDomainName] ends,
    with a name or with a panic, from every offset: the loop moves forward
    at each turn, and fuel for one turn more than the buffer has bytes is
    never used up. *)
Theorem ParseDomainName_terminates_without_pointers (fuel : nat)
    (buf : slice) (offset : Z) :
  pointer_free buf ->
  (len buf < fuel)%nat ->
  ParseDomainName fuel buf offset <> Diverge.
Proof.
  intros Hfree Hfuel. unfold ParseDomainName.
  destruct (Z.lt_ge_cases offset 0) as [Hneg | Hpos].
  - destruct fuel as [|fuel]; [lia|].
    rewrite ParseDomainName_loop_step. unfold index.
    destruct (Z.leb_spec 0 offset); [lia|]. discriminate.
  - apply ParseDomainName_loop_terminates; [exact Hfree|lia|lia].
Qed.

Lemma ParseDomainName_terminates_without_pointers_witness :
  ParseDomainName 14 (full example_com) 7 <> Diverge.
Proof.
  apply ParseDomainName_terminates_without_pointers.
  - unfold pointer_free. repeat constructor.
  - vm_compute. lia.
Defined.

(** The labels of a wire form, anywhere in a buffer, up to the terminator. *)
Lemma ParseDomainName_loop_wire (ls : list string) (fuel : nat) (buf : slice)
    (pre post : list byte) (acc : list string) :
  arr buf = pre ++ (encode_labels ls ++ [x00]) ++ post ->
  (length pre + length (encode_labels ls) < len buf)%nat ->
  Forall ordinary_label ls ->
  ParseDomainName_loop (length ls + S fuel) buf (Z.of_nat (length pre)) acc
  = Ok (Join (acc ++ ls) ".",
        Z.of_nat (length pre) + Z.of_nat (length (encode_labels ls)) + 1).
Proof.
  intros Harr Hlen Hall.
  rewrite (ParseDomainName_loop_labels ls _ buf pre (x00 :: post));
    [|now rewrite Harr, <- app_assoc|lia|exact Hall].
  rewrite ParseDomainName_loop_step.
  rewrite (index_ok _ _ x00);
    [|lia|rewrite Harr, <- app_assoc, app_assoc;
          apply list_lookup_middle; now rewrite length_app].
  cbn [mbind result_bind]. change (byte_val x00 =? 0) with true. cbn iota.
  do 2 f_equal. lia.
Qed.

(** X3.  A name inside a message: [ParseDomainName], started where the encoding
    of a name begins, returns the name without its empty labels and the
    offset just after the encoding, whatever comes before and after it in the
    buffer. *)
Theorem ParseDomainName_inside_message (N : string) (wire pre post : list byte)
    (fuel : nat) :
  EncodeDomainName N = Ok wire ->
  Forall ordinary_label (List.filter nonempty (Split N ".")) ->
  (length (Split N ".") < fuel)%nat ->
  ParseDomainName fuel (full (pre ++ wire ++ post)) (Z.of_nat (length pre))
  = Ok (normalize N, Z.of_nat (length pre) + Z.of_nat (length wire)).
Proof.
  intros Henc Hall Hfuel.
  rewrite EncodeDomainName_wire in Henc. injection Henc as <-.
  unfold ParseDomainName, wire_form, normalize.
  set (ls := List.filter nonempty (Split N ".")) in *.
  assert (Hls : (length ls <= length (Split N "."))%nat)
    by apply List.filter_length_le.
  replace fuel with (length ls + S (fuel - S (length ls)))%nat by lia.
  rewrite (ParseDomainName_loop_wire ls _ _ pre post);
    [|reflexivity
     |unfold full; cbn [len]; rewrite !length_app; simpl; lia
     |exact Hall].
  do 2 f_equal. rewrite length_app. simpl. lia.
Qed.

Lemma ParseDomainName_inside_message_witness :
  ParseDomainName 4
    (full (scenario_header ++ wire_form "codecrafters..io" ++ [x00; x01]))
    12
  = Ok ("codecrafters.io", 12 + 17).
Proof.
  apply (ParseDomainName_inside_message "codecrafters..io"
           (wire_form "codecrafters..io") scenario_header [x00; x01] 4).
  - vm_compute. reflexivity.
  - repeat constructor; vm_compute; discriminate.
  - vm_compute. lia.
Defined.

Lemma ParseDomainName_loop_truncated (ls : list string) :
  forall (fuel n : nat) (pre : list byte) (acc : list string),
    Forall ordinary_label ls ->
    (n < length (encode_labels ls ++ [x00]))%nat ->
    (length ls < fuel)%nat ->
    exists p,
      ParseDomainName_loop fuel
        (full (pre ++ take n (encode_labels ls ++ [x00])))
        (Z.of_nat (length pre)) acc
      = Panic p.
Proof.
  induction ls as [|l ls IH]; intros fuel n pre acc Hall Hn Hfuel.
  - simpl in Hn. assert (n = 0)%nat as -> by lia.
    destruct fuel as [|fuel]; [simpl in Hfuel; lia|].
    rewrite ParseDomainName_loop_step. unfold index, full. cbn [len].
    rewrite take_0, app_nil_r.
    destruct (Z.ltb_spec (Z.of_nat (length pre)) (Z.of_nat (length pre)));
      [lia|].
    rewrite andb_false_r. eexists. reflexivity.
  - inversion Hall as [|? ? Hl Hls]; subst.
    destruct fuel as [|fuel]; [simpl in Hfuel; lia|].
    cbn [length] in Hfuel. cbn [encode_labels] in *.
    rewrite <- app_assoc in *. rewrite length_app, length_encode_label in Hn.
    destruct (Nat.le_gt_cases (S (String.length l)) n) as [Hge | Hlt].
    + rewrite take_app_ge by (rewrite length_encode_label; lia).
      rewrite length_encode_label.
      rewrite (ParseDomainName_loop_label fuel _ pre
                 (take (n - S (String.length l)) (encode_labels ls ++ [x00]))
                 l);
        [|reflexivity
         |unfold full; cbn [len]; rewrite !length_app, length_encode_label; lia
         |exact Hl].
      rewrite <- length_app, app_assoc. apply IH; [exact Hls|lia|lia].
    + rewrite ParseDomainName_loop_step. destruct n as [|n].
      * unfold index, full. cbn [len]. rewrite take_0, app_nil_r.
        destruct (Z.ltb_spec (Z.of_nat (length pre)) (Z.of_nat (length pre)));
          [lia|].
        rewrite andb_false_r. eexists. reflexivity.
      * set (t := take (S n) (encode_label l ++ encode_labels ls ++ [x00])).
        assert (Hlen : length t = S n).
        { subst t. rewrite length_take, !length_app, length_encode_label.
          simpl. lia. }
        assert (Ht : (pre ++ t) !! length pre = Some (byte_of_Z (strlen l))).
        { rewrite lookup_app_r, Nat.sub_diag by lia. reflexivity. }
        rewrite (index_ok _ _ (byte_of_Z (strlen l)));
          [|unfold full; cbn [len]; rewrite length_app; lia|exact Ht].
        cbn [mbind result_bind]. rewrite byte_val_of_Z.
        destruct Hl as [Hl1 Hl2]. rewrite Z.mod_small by lia.
        destruct (Z.eqb_spec (strlen l) 0); [lia|].
        destruct (Z.leb_spec 192 (strlen l)); [lia|].
        unfold reslice, cap, full. cbn [arr].
        rewrite length_app, Hlen. unfold strlen.
        destruct (Z.leb_spec
                    (Z.of_nat (length pre) + 1 + Z.of_nat (String.length l))
                    (Z.of_nat (length pre + S n))); [lia|].
        rewrite andb_false_r. eexists. reflexivity.
Qed.

(** X4.  A name cut short: on any proper prefix of the encoding of a name,
    wherever it ends in the buffer, [ParseDomainName] panics, on the index of
    a length byte that is missing or on the slice of a label that runs out of
    the buffer; it returns no partial name. *)
Theorem ParseDomainName_truncated_panics (N : string) (wire pre : list byte)
    (n fuel : nat) :
  EncodeDomainName N = Ok wire ->
  Forall ordinary_label (List.filter nonempty (Split N ".")) ->
  (n < length wire)%nat ->
  (length (Split N ".") < fuel)%nat ->
  exists p,
    ParseDomainName fuel (full (pre ++ take n wire)) (Z.of_nat (length pre))
    = Panic p.
Proof.
  intros Henc Hall Hn Hfuel.
  rewrite EncodeDomainName_wire in Henc. injection Henc as <-.
  unfold ParseDomainName, wire_form in *.
  apply ParseDomainName_loop_truncated; [exact Hall|exact Hn|].
  eapply Nat.le_lt_trans; [apply List.filter_length_le|exact Hfuel].
Qed.

Lemma ParseDomainName_truncated_panics_witness :
  exists p,
    ParseDomainName 3 (full (scenario_header ++ take 9 example_com)) 12
    = Panic p.
Proof.
  apply (ParseDomainName_truncated_panics "example.com" example_com
           scenario_header 9 3).
  - vm_compute. reflexivity.
  - repeat constructor; vm_compute; discriminate.
  - vm_compute. lia.
  - vm_compute. lia.
Defined.

(** ** [EncodeDomainName]: composition, root, injectivity, long labels *)

Lemma Split_app_sep (a b : string) (sep : ascii) :
  Split (a +:+ String sep b) sep = Split a sep ++ Split b sep.
Proof.
  induction a as [|c a IH].
  - change ("" +:+ String sep b) with (String sep b). simpl.
    now rewrite Ascii.eqb_refl.
  - change (String c a +:+ String sep b) with (String c (a +:+ String sep b)).
    simpl. rewrite IH. destruct (Ascii.eqb c sep); [reflexivity|].
    pose proof (Split_not_nil a sep) as Hne.
    destruct (Split a sep); [congruence | reflexivity].
Qed.

Lemma filter_Split_dot (a b : string) :
  List.filter nonempty (Split (a +:+ "." +:+ b) ".")
  = List.filter nonempty (Split a ".") ++ List.filter nonempty (Split b ".").
Proof.
  change (a +:+ "." +:+ b) with (a +:+ String "."%char b).
  now rewrite Split_app_sep, List.filter_app.
Qed.

Lemma append_assoc (a b c : string) : (a +:+ b) +:+ c = a +:+ b +:+ c.
Proof.
  induction a as [|x a IH]; [reflexivity|].
  change (String x ((a +:+ b) +:+ c) = String x (a +:+ b +:+ c)).
  now f_equal.
Qed.

Lemma Join_app (la lb : list string) :
  la <> [] -> lb <> [] ->
  Join (la ++ lb) "." = Join la "." +:+ "." +:+ Join lb ".".
Proof.
  unfold Join. intros Hla Hlb. induction la as [|x la IH]; [congruence|].
  destruct la as [|y la].
  - cbn [app]. now rewrite concat_cons.
  - cbn [app] in *. rewrite concat_cons by discriminate.
    rewrite IH by discriminate. rewrite (concat_cons _ x) by discriminate.
    now rewrite !append_assoc.
Qed.

Lemma pointer_join_app (la lb : list string) :
  lb <> [] -> pointer_join la (Join lb ".") = Join (la ++ lb) ".".
Proof.
  intros Hlb. destruct la as [|x la]; [reflexivity|].
  unfold pointer_join. now rewrite Join_app.
Qed.

Lemma wire_form_split (N : string) (wire : list byte) :
  EncodeDomainName N = Ok wire ->
  wire = encode_labels (List.filter nonempty (Split N ".")) ++ [x00]
  /\ take (length wire - 1) wire
     = encode_labels (List.filter nonempty (Split N ".")).
Proof.
  rewrite EncodeDomainName_wire. intros H. injection H as <-.
  split; [reflexivity|]. unfold wire_form.
  apply take_app_length'. rewrite length_app. simpl. lia.
Qed.

(** X5.  The encoding of [a.b] is the encoding of [a] without its terminator
    followed by the encoding of [b]: the encoding of a parent domain is a
    suffix of the encoding of each of its subdomains. *)
Theorem EncodeDomainName_concat (a b : string) (wa wb : list byte) :
  EncodeDomainName a = Ok wa ->
  EncodeDomainName b = Ok wb ->
  EncodeDomainName (a +:+ "." +:+ b) = Ok (take (length wa - 1) wa ++ wb).
Proof.
  intros Ha Hb. apply wire_form_split in Ha as [_ ->].
  apply wire_form_split in Hb as [-> _].
  rewrite EncodeDomainName_wire. unfold wire_form.
  now rewrite filter_Split_dot, encode_labels_app, <- app_assoc.
Qed.

Lemma EncodeDomainName_concat_witness :
  EncodeDomainName "www.example.com" = Ok (www ++ example_com).
Proof.
  apply (EncodeDomainName_concat "www" "example.com"
           (www ++ [x00]) example_com); vm_compute; reflexivity.
Defined.

(** X6.  Compression is sound.  In a message that holds the encoding of [B] at
    the offset [length pre] and, later, the labels of [A] followed by a
    pointer to that offset, [ParseDomainName] at the labels of [A] returns
    the name [A.B] without its empty labels, as it does on the encoding of
    [A.B] itself, and the offset after the pointer.  [B] is not the root. *)
Theorem ParseDomainName_compressed_suffix (A B : string)
    (wA wB pre mid post : list byte) (b1 b2 : byte) (fuel : nat) :
  EncodeDomainName A = Ok wA ->
  EncodeDomainName B = Ok wB ->
  Forall ordinary_label (List.filter nonempty (Split A ".")) ->
  Forall ordinary_label (List.filter nonempty (Split B ".")) ->
  List.filter nonempty (Split B ".") <> [] ->
  192 <= byte_val b1 ->
  pointer_target b1 b2 = Z.of_nat (length pre) ->
  (length (Split A ".") + length (Split B ".") + 1 < fuel)%nat ->
  ParseDomainName fuel
    (full (pre ++ wB ++ mid ++ take (length wA - 1) wA ++ [b1; b2] ++ post))
    (Z.of_nat (length (pre ++ wB ++ mid)))
  = Ok (normalize (A +:+ "." +:+ B),
        Z.of_nat (length (pre ++ wB ++ mid)) + Z.of_nat (length wA) + 1).
Proof.
  intros HA HB HallA HallB HneB Hptr Htarget Hfuel.
  apply wire_form_split in HA as [HwA ->].
  apply wire_form_split in HB as [-> _].
  unfold normalize. rewrite filter_Split_dot.
  set (la := List.filter nonempty (Split A ".")) in *.
  set (lb := List.filter nonempty (Split B ".")) in *.
  assert (Hla : (length la <= length (Split A "."))%nat)
    by apply List.filter_length_le.
  assert (Hlb : (length lb <= length (Split B "."))%nat)
    by apply List.filter_length_le.
  set (buf := full (pre ++ (encode_labels lb ++ [x00]) ++ mid
                        ++ encode_labels la ++ [b1; b2] ++ post)).
  assert (Hlen : len buf
                 = (length pre + (length (encode_labels lb) + 1) + length mid
                    + length (encode_labels la) + 2 + length post)%nat).
  { unfold buf, full. cbn [len]. rewrite !length_app. simpl. lia. }
  set (start := pre ++ (encode_labels lb ++ [x00]) ++ mid).
  assert (Hstart : length start
                   = (length pre + (length (encode_labels lb) + 1)
                      + length mid)%nat).
  { unfold start. rewrite !length_app. simpl. lia. }
  assert (Harr : arr buf
                 = start ++ encode_labels la ++ b1 :: b2 :: post).
  { unfold buf, start, full. cbn [arr]. now rewrite <- !app_assoc. }
  unfold ParseDomainName.
  replace fuel
    with (length la + S (length lb + S (fuel - (length la + length lb + 2))))%nat
    by lia.
  rewrite (ParseDomainName_loop_labels la _ buf start (b1 :: b2 :: post));
    [|exact Harr|lia|exact HallA].
  rewrite (ParseDomainName_loop_pointer _ buf _ la b1 b2);
    [|apply index_ok; [lia|rewrite Harr, app_assoc;
                            apply list_lookup_middle; now rewrite length_app]
     |exact Hptr|].
  - rewrite Htarget. unfold ParseDomainName.
    rewrite (ParseDomainName_loop_wire lb _ buf pre
               (mid ++ encode_labels la ++ [b1; b2] ++ post));
      [|reflexivity|lia|exact HallB].
    cbn [mbind result_bind fst app].
    rewrite pointer_join_app by exact HneB.
    do 2 f_equal. rewrite HwA, length_app. simpl. lia.
  - replace (Z.of_nat (length start + length (encode_labels la)) + 1)
      with (Z.of_nat (S (length start + length (encode_labels la)))) by lia.
    apply index_ok; [lia|].
    rewrite Harr, app_assoc.
    change (b1 :: b2 :: post) with ([b1] ++ b2 :: post). rewrite app_assoc.
    apply list_lookup_middle. rewrite !length_app. simpl. lia.
Qed.

Lemma ParseDomainName_compressed_suffix_witness :
  ParseDomainName 5
    (full (scenario_header ++ example_com ++ [x00; x01; x00; x01]
             ++ www ++ [xc0; x0c] ++ [x00; x01]))
    29
  = Ok ("www.example.com", 29 + 5 + 1).
Proof.
  apply (ParseDomainName_compressed_suffix "www" "example.com"
           (www ++ [x00]) example_com scenario_header
           [x00; x01; x00; x01] [x00; x01] xc0 x0c 5).
  - vm_compute. reflexivity.
  - vm_compute. reflexivity.
  - repeat constructor; vm_compute; discriminate.
  - repeat constructor; vm_compute; discriminate.
  - vm_compute. discriminate.
  - vm_compute. discriminate.
  - vm_compute. reflexivity.
  - vm_compute. lia.
Defined.

(** X7.  A pointer to the root name, after labels, gives a name that ends in a
    dot: the labels are joined to the empty pointed-to name by a dot.  The
    uncompressed encoding of the same labels decodes without that dot. *)
Theorem ParseDomainName_pointer_to_root (ls : list string)
    (pre mid post : list byte) (b1 b2 : byte) (fuel : nat) :
  ls <> [] ->
  Forall ordinary_label ls ->
  192 <= byte_val b1 ->
  pointer_target b1 b2 = Z.of_nat (length pre) ->
  ParseDomainName (length ls + S (S fuel))
    (full (pre ++ [x00] ++ mid ++ encode_labels ls ++ [b1; b2] ++ post))
    (Z.of_nat (length (pre ++ [x00] ++ mid)))
  = Ok (Join ls "." +:+ ".",
        Z.of_nat (length (pre ++ [x00] ++ mid))
        + Z.of_nat (length (encode_labels ls)) + 2).
Proof.
  intros Hne Hall Hptr Htarget.
  set (buf := full (pre ++ [x00] ++ mid ++ encode_labels ls
                        ++ [b1; b2] ++ post)).
  set (start := pre ++ [x00] ++ mid).
  assert (Hlen : len buf
                 = (length start + length (encode_labels ls) + 2
                    + length post)%nat).
  { unfold buf, start, full. cbn [len]. rewrite !length_app. simpl. lia. }
  assert (Harr : arr buf = start ++ encode_labels ls ++ b1 :: b2 :: post).
  { unfold buf, start, full. cbn [arr]. now rewrite <- !app_assoc. }
  unfold ParseDomainName.
  rewrite (ParseDomainName_loop_labels ls _ buf start (b1 :: b2 :: post));
    [|exact Harr|lia|exact Hall].
  rewrite (ParseDomainName_loop_pointer _ buf _ ls b1 b2);
    [|apply index_ok; [lia|rewrite Harr, app_assoc;
                            apply list_lookup_middle; now rewrite length_app]
     |exact Hptr|].
  - rewrite Htarget. unfold ParseDomainName.
    rewrite ParseDomainName_loop_step.
    rewrite (index_ok _ _ x00);
      [|rewrite Hlen; unfold start; rewrite !length_app; simpl; lia
       |unfold buf, full; cbn [arr]; now apply list_lookup_middle].
    cbn [mbind result_bind fst app]. change (byte_val x00 =? 0) with true.
    cbn iota. cbn [mbind result_bind fst].
    destruct ls; [congruence|]. unfold pointer_join.
    do 2 f_equal. lia.
  - replace (Z.of_nat (length start + length (encode_labels ls)) + 1)
      with (Z.of_nat (S (length start + length (encode_labels ls)))) by lia.
    apply index_ok; [lia|].
    rewrite Harr, app_assoc.
    change (b1 :: b2 :: post) with ([b1] ++ b2 :: post). rewrite app_assoc.
    apply list_lookup_middle. rewrite !length_app. simpl. lia.
Qed.

Lemma ParseDomainName_pointer_to_root_witness :
  ParseDomainName 3 (full ([x00] ++ www ++ [xc0; x00])) 1 = Ok ("www.", 7).
Proof.
  apply (ParseDomainName_pointer_to_root ["www"] [] [] [] xc0 x00 0).
  - discriminate.
  - repeat constructor; vm_compute; discriminate.
  - vm_compute. discriminate.
  - reflexivity.
Defined.

Lemma strlen_zero (l : string) : strlen l = 0 <-> l = "".
Proof.
  unfold strlen. destruct l; simpl; split; intros H;
    try reflexivity; try discriminate; lia.
Qed.

Lemma filter_nonempty_nil (ls : list string) :
  List.filter nonempty ls = [] <-> Forall (fun l => l = "") ls.
Proof.
  induction ls as [|l ls IH]; [split; [constructor | reflexivity]|].
  rewrite filter_nonempty_cons.
  destruct (Z.ltb_spec 0 (strlen l)) as [Hpos | Hzero].
  - split; [discriminate|]. intros H. inversion H as [|? ? Hl _]; subst.
    vm_compute in Hpos. discriminate.
  - rewrite IH. split.
    + intros H. constructor; [|exact H]. apply strlen_zero.
      unfold strlen in *. lia.
    + intros H. now inversion H.
Qed.

Lemma encode_labels_nil (ls : list string) :
  encode_labels ls = [] -> ls = [].
Proof. destruct ls; [reflexivity | discriminate]. Qed.

(** X8.  The names that encode as the root, the single byte 0, are those made of
    dots only: the empty string and ["."], which the code tests for, and
    also [".."] and longer runs, which go through the loops. *)
Theorem EncodeDomainName_root_iff (N : string) :
  EncodeDomainName N = Ok [x00]
  <-> Forall (fun label => label = "") (Split N ".").
Proof.
  rewrite EncodeDomainName_wire, <- filter_nonempty_nil. unfold wire_form.
  split.
  - intros H. injection H as H.
    apply encode_labels_nil.
    change [x00] with ([] ++ [x00]) in H at 2.
    now apply app_inv_tail in H.
  - intros ->. reflexivity.
Qed.

(** X9.  Two names whose labels have at most 191 bytes have the same encoding
    exactly when they are the same name up to empty labels. *)
Theorem EncodeDomainName_injective (a b : string) :
  Forall ordinary_label (List.filter nonempty (Split a ".")) ->
  Forall ordinary_label (List.filter nonempty (Split b ".")) ->
  EncodeDomainName a = EncodeDomainName b <-> normalize a = normalize b.
Proof.
  intros Ha Hb. split.
  - rewrite !EncodeDomainName_wire. intros H. injection H as H.
    set (la := List.filter nonempty (Split a ".")) in *.
    set (lb := List.filter nonempty (Split b ".")) in *.
    pose proof (ParseDomainName_encode_labels la
                  (S (Nat.max (length la) (length lb))) Ha) as Da.
    pose proof (ParseDomainName_encode_labels lb
                  (S (Nat.max (length la) (length lb))) Hb) as Db.
    unfold wire_form in H. fold la lb in H. rewrite H in Da.
    rewrite Db in Da by lia. unfold normalize. fold la lb.
    symmetry. specialize (Da ltac:(lia)). now injection Da.
  - intros H. rewrite !EncodeDomainName_wire.
    now rewrite <- (wire_form_normalize a), <- (wire_form_normalize b), H.
Qed.

Lemma EncodeDomainName_injective_witness :
  EncodeDomainName ".a..b" = EncodeDomainName "a.b."
  <-> normalize ".a..b" = normalize "a.b.".
Proof.
  apply EncodeDomainName_injective;
    repeat constructor; vm_compute; discriminate.
Defined.

(** X10.  A label whose length is a multiple of 256 gets the length byte 0: the
    encoding starts with the terminator, and [ParseDomainName] reads the root
    name from it and stops after one byte. *)
Theorem EncodeDomainName_length_byte_wraps (label : string) (fuel : nat) :
  has_char "." label = false ->
  0 < strlen label ->
  strlen label mod 256 = 0 ->
  EncodeDomainName label
  = Ok (x00 :: String.list_byte_of_string label ++ [x00])
  /\ ParseDomainName (S fuel)
       (full (x00 :: String.list_byte_of_string label ++ [x00])) 0
     = Ok ("", 1).
Proof.
  intros Hdot Hpos Hmod. split; [|reflexivity].
  rewrite EncodeDomainName_wire. unfold wire_form.
  rewrite Split_no_sep_id by exact Hdot.
  cbn [List.filter]. unfold nonempty.
  destruct (Z.ltb_spec 0 (strlen label)); [|lia].
  cbn [encode_labels]. unfold encode_label.
  assert (Hb : byte_of_Z (strlen label) = x00).
  { unfold byte_of_Z. now rewrite Hmod. }
  rewrite Hb, app_nil_r. reflexivity.
Qed.

Lemma EncodeDomainName_length_byte_wraps_witness :
  EncodeDomainName (repeat_char "a" 256)
  = Ok (x00 :: String.list_byte_of_string (repeat_char "a" 256) ++ [x00])
  /\ ParseDomainName 1
       (full (x00 :: String.list_byte_of_string (repeat_char "a" 256)
                  ++ [x00])) 0
     = Ok ("", 1).
Proof.
  apply (EncodeDomainName_length_byte_wraps (repeat_char "a" 256) 0);
    vm_compute; reflexivity.
Defined.

(** ** Questions: [Question.Marshal] and [ParseQuestion] *)

Lemma PutUint16_window_ok (done rest : list byte) (v : Z) (b0 b1 : byte) :
  PutUint16_window (done ++ b0 :: b1 :: rest) (Z.of_nat (length done))
                   (Z.of_nat (length done) + 2) v
  = Ok (done ++ PutUint16 v ++ rest).
Proof.
  unfold PutUint16_window. rewrite length_app. cbn [length].
  destruct (Z.leb_spec 0 (Z.of_nat (length done))); [|lia].
  destruct (Z.leb_spec (Z.of_nat (length done)) (Z.of_nat (length done) + 2));
    [|lia].
  destruct (Z.leb_spec (Z.of_nat (length done) + 2)
              (Z.of_nat (length done + S (S (length rest))))); [|lia].
  destruct (Z.ltb_spec 1 (Z.of_nat (length done) + 2 - Z.of_nat (length done)));
    [|lia].
  cbn [andb]. f_equal. rewrite Nat2Z.id.
  replace (length done) with (length done + 0)%nat at 1 by lia.
  now rewrite list_inserts_app_r.
Qed.

Lemma Question_Marshal_wire (q : Question) :
  Question_Marshal q
  = Ok (wire_form (Name q) ++ PutUint16 (Type_ q) ++ PutUint16 (Class q)).
Proof.
  unfold Question_Marshal. rewrite EncodeDomainName_wire.
  cbn [mbind result_bind]. set (w := wire_form (Name q)).
  unfold make.
  replace (Z.to_nat (Z.of_nat (length w) + 4)) with (length w + 4)%nat
    by lia.
  rewrite replicate_add.
  rewrite copy_from_ok by (rewrite length_app; lia).
  cbn [mbind result_bind]. change (Z.to_nat 0) with 0%nat.
  rewrite list_inserts_0_r by now rewrite length_replicate.
  cbn [replicate].
  rewrite PutUint16_window_ok. cbn [mbind result_bind].
  unfold PutUint16 at 1. cbn [app].
  replace (w ++ byte_of_Z (Z.shiftr (Type_ q) 8) :: byte_of_Z (Type_ q)
             :: [x00; x00])
    with ((w ++ PutUint16 (Type_ q)) ++ [x00; x00])
    by (now rewrite <- app_assoc).
  replace (Z.of_nat (length w) + 2)
    with (Z.of_nat (length (w ++ PutUint16 (Type_ q))))
    by (rewrite length_app; simpl; lia).
  rewrite PutUint16_window_ok. cbn [mbind result_bind].
  now rewrite app_nil_r, <- app_assoc.
Qed.

(** X11.  [Question.Marshal] fails only where [EncodeDomainName] does, which
    is nowhere: the bytes are the encoded name, then the type and the class,
    each as two bytes, the high byte first. *)
Theorem Question_Marshal_layout (q : Question) :
  Question_Marshal q
  = (nameBuf ← EncodeDomainName (Name q);
     Ok (nameBuf ++ PutUint16 (Type_ q) ++ PutUint16 (Class q)))
  /\ exists bytes, Question_Marshal q = Ok bytes
                   /\ Z.of_nat (length bytes) = encoded_length (Name q) + 4.
Proof.
  pose proof (Question_Marshal_wire q) as H. split.
  - rewrite H, EncodeDomainName_wire. reflexivity.
  - eexists. split; [exact H|].
    rewrite !length_app, <- length_wire_form. simpl. lia.
Qed.

(** X12.  What [Question.Marshal] writes, [ParseQuestion] reads back: the name
    without its empty labels, the type and the class, and the offset at the
    end of the bytes. *)
Theorem ParseQuestion_Marshal_roundtrip (q : Question) (bytes post : list byte)
    (fuel : nat) :
  Question_Marshal q = Ok bytes ->
  Forall ordinary_label (List.filter nonempty (Split (Name q) ".")) ->
  is_uint16 (Type_ q) ->
  is_uint16 (Class q) ->
  (length (Split (Name q) ".") < fuel)%nat ->
  ParseQuestion fuel (full (bytes ++ post)) 0
  = Ok (mkQuestion (normalize (Name q)) (Type_ q) (Class q),
        Z.of_nat (length bytes)).
Proof.
  intros Hm Hall Ht Hc Hfuel.
  rewrite Question_Marshal_wire in Hm.
  assert (Hb : bytes = wire_form (Name q) ++ PutUint16 (Type_ q)
                                          ++ PutUint16 (Class q))
    by congruence.
  clear Hm. subst bytes. set (w := wire_form (Name q)).
  unfold ParseQuestion.
  pose proof (ParseDomainName_loop_wire
                (List.filter nonempty (Split (Name q) "."))
                (fuel - S (length (List.filter nonempty (Split (Name q) "."))))
                (full ((w ++ PutUint16 (Type_ q) ++ PutUint16 (Class q))
                         ++ post))
                [] (PutUint16 (Type_ q) ++ PutUint16 (Class q) ++ post) [])
    as Hname.
  assert (Hls : (length (List.filter nonempty (Split (Name q) "."))
                 <= length (Split (Name q) "."))%nat)
    by apply List.filter_length_le.
  replace (length (List.filter nonempty (Split (Name q) "."))
           + S (fuel - S (length (List.filter nonempty (Split (Name q) ".")))))%nat
    with fuel in Hname by lia.
  unfold ParseDomainName. change (Z.of_nat (length (@nil byte))) with 0 in Hname.
  rewrite Hname;
    [|unfold full, w, wire_form; cbn [arr app]; now rewrite <- !app_assoc
     |unfold full, w, wire_form; cbn [len length];
      rewrite !length_app; simpl; lia
     |exact Hall].
  cbn [mbind result_bind fst snd app].
  fold (wire_form (Name q)) (normalize (Name q)).
  assert (Hoff : 0 + Z.of_nat (length (encode_labels
                   (List.filter nonempty (Split (Name q) "."))) ) + 1
                 = Z.of_nat (length w)).
  { unfold w, wire_form. rewrite length_app. simpl. lia. }
  rewrite Hoff.
  unfold PutUint16.
  set (tail := [byte_of_Z (Z.shiftr (Type_ q) 8); byte_of_Z (Type_ q);
                byte_of_Z (Z.shiftr (Class q) 8); byte_of_Z (Class q)]).
  change ((w ++ [byte_of_Z (Z.shiftr (Type_ q) 8); byte_of_Z (Type_ q)]
             ++ [byte_of_Z (Z.shiftr (Class q) 8); byte_of_Z (Class q)])
            ++ post)
    with ((w ++ tail) ++ post).
  assert (Hlook : forall (j i : nat) (x : byte),
             j = (length w + i)%nat -> tail !! i = Some x ->
             arr (full ((w ++ tail) ++ post)) !! j = Some x).
  { intros j i x -> Hx. unfold full. cbn [arr].
    rewrite <- app_assoc, lookup_app_r by lia.
    replace (length w + i - length w)%nat with i by lia.
    now apply lookup_app_l_Some. }
  rewrite (Uint16_window _ (Z.of_nat (length w))
             (byte_of_Z (Z.shiftr (Type_ q) 8)) (byte_of_Z (Type_ q)));
    [|lia|apply (Hlook _ 0%nat); [lia|reflexivity]
     |apply (Hlook _ 1%nat); [lia|reflexivity]].
  rewrite (Uint16_window _ (Z.of_nat (length w) + 2)
             (byte_of_Z (Z.shiftr (Class q) 8)) (byte_of_Z (Class q)));
    [|lia|apply (Hlook _ 2%nat); [lia|reflexivity]
     |apply (Hlook _ 3%nat); [lia|reflexivity]].
  rewrite !be16_PutUint16 by assumption.
  do 2 f_equal. unfold tail. rewrite !length_app. simpl. lia.
Qed.

Lemma ParseQuestion_Marshal_roundtrip_witness :
  ParseQuestion 3 (full (drop 12 scenario_datagram ++ [xff])) 0
  = Ok (mkQuestion "codecrafters.io" A 1, 21).
Proof.
  apply (ParseQuestion_Marshal_roundtrip scenario_question
           (drop 12 scenario_datagram) [xff] 3).
  - vm_compute. reflexivity.
  - repeat constructor; vm_compute; discriminate.
  - vm_compute. split; [discriminate | reflexivity].
  - vm_compute. split; [discriminate | reflexivity].
  - vm_compute. lia.
Defined.

(** X13.  [ParseQuestion] takes the type and the class through slice expressions,
    which Go checks against the capacity of the buffer: after a name that
    ends at [off], it returns when [off + 4] is within the capacity, with the
    four bytes found there even when they lie past the length of the buffer,
    and panics on the slice bounds otherwise. *)
Theorem ParseQuestion_reads_within_capacity (fuel : nat) (buf : slice)
    (offset : Z) (name : string) (off : Z) :
  ParseDomainName fuel buf offset = Ok (name, off) ->
  (off + 4 <= Z.of_nat (cap buf) ->
   exists b0 b1 b2 b3,
     arr buf !! Z.to_nat off = Some b0
     /\ arr buf !! Z.to_nat (off + 1) = Some b1
     /\ arr buf !! Z.to_nat (off + 2) = Some b2
     /\ arr buf !! Z.to_nat (off + 3) = Some b3
     /\ ParseQuestion fuel buf offset
        = Ok (mkQuestion name (be16 b0 b1) (be16 b2 b3), off + 4))
  /\ (Z.of_nat (cap buf) < off + 4 ->
      ParseQuestion fuel buf offset = Panic SliceBoundsOutOfRange).
Proof.
  intros Hname.
  pose proof (ParseDomainName_loop_offset _ _ _ _ _ _ Hname) as [Hoff _].
  assert (Hget : forall i : Z, 0 <= i -> i < Z.of_nat (cap buf) ->
                   exists b, arr buf !! Z.to_nat i = Some b).
  { intros i Hi Hcap. apply lookup_lt_is_Some. unfold cap in Hcap. lia. }
  unfold ParseQuestion. rewrite Hname. cbn [mbind result_bind fst snd].
  split.
  - intros Hcap.
    destruct (Hget off) as [b0 H0]; [lia|lia|].
    destruct (Hget (off + 1)) as [b1 H1]; [lia|lia|].
    destruct (Hget (off + 2)) as [b2 H2]; [lia|lia|].
    destruct (Hget (off + 3)) as [b3 H3]; [lia|lia|].
    exists b0, b1, b2, b3. repeat (split; [assumption|]).
    rewrite (Uint16_window buf off b0 b1);
      [|lia|exact H0|now replace (S (Z.to_nat off))
                         with (Z.to_nat (off + 1)) by lia].
    rewrite (Uint16_window buf (off + 2) b2 b3);
      [|lia|exact H2|now replace (S (Z.to_nat (off + 2)))
                         with (Z.to_nat (off + 3)) by lia].
    do 2 f_equal. lia.
  - intros Hcap. destruct (Z.le_gt_cases (off + 2) (Z.of_nat (cap buf))).
    + destruct (Hget off) as [b0 H0]; [lia|lia|].
      destruct (Hget (off + 1)) as [b1 H1]; [lia|lia|].
      rewrite (Uint16_window buf off b0 b1);
        [|lia|exact H0|now replace (S (Z.to_nat off))
                           with (Z.to_nat (off + 1)) by lia].
      unfold reslice.
      destruct (Z.leb_spec (off + 2 + 2) (Z.of_nat (cap buf))); [lia|].
      now rewrite andb_false_r.
    + unfold reslice.
      destruct (Z.leb_spec (off + 2) (Z.of_nat (cap buf))); [lia|].
      now rewrite andb_false_r.
Qed.

Lemma ParseQuestion_reads_within_capacity_witness :
  ParseQuestion 1 root_with_capacity 0 = Ok (mkQuestion "" AAAA 1, 5)
  /\ ParseQuestion 1 (full [x00; x00; x1c; x00]) 0
     = Panic SliceBoundsOutOfRange.
Proof.
  split.
  - destruct (ParseQuestion_reads_within_capacity 1 root_with_capacity 0
                "" 1 eq_refl) as [Hok _].
    destruct (Hok ltac:(vm_compute; discriminate))
      as (b0 & b1 & b2 & b3 & H0 & H1 & H2 & H3 & Hq).
    vm_compute in H0, H1, H2, H3.
    injection H0 as <-. injection H1 as <-.
    injection H2 as <-. injection H3 as <-. exact Hq.
  - destruct (ParseQuestion_reads_within_capacity 1
                (full [x00; x00; x1c; x00]) 0 "" 1 eq_refl) as [_ Hpanic].
    apply Hpanic. vm_compute. reflexivity.
Defined.

(** ** [QuestionType.String] *)

(** X14.  [String] names a type only for A, NS, CNAME, MX, TXT and AAAA, and
    names them apart; every other value, the declared MD, MF, SOA, MB, MG,
    MR, NULL, WKS and PTR among them, prints as ["UNKNOWN"]. *)
Theorem QuestionType_String_names (qt qt' : QuestionType) :
  (QuestionType_String qt = "UNKNOWN"
   <-> ~ In qt [A; NS; CNAME; MX; TXT; AAAA])
  /\ (QuestionType_String qt <> "UNKNOWN" ->
      QuestionType_String qt = QuestionType_String qt' -> qt = qt')
  /\ Forall (fun t => QuestionType_String t = "UNKNOWN")
            [MD; MF; SOA; MB; MG; MR; NULL; WKS; PTR].
Proof.
  assert (Hcases : forall t,
             (t = A /\ QuestionType_String t = "A")
             \/ (t = NS /\ QuestionType_String t = "NS")
             \/ (t = CNAME /\ QuestionType_String t = "CNAME")
             \/ (t = MX /\ QuestionType_String t = "MX")
             \/ (t = TXT /\ QuestionType_String t = "TXT")
             \/ (t = AAAA /\ QuestionType_String t = "AAAA")
             \/ (~ In t [A; NS; CNAME; MX; TXT; AAAA]
                 /\ QuestionType_String t = "UNKNOWN")).
  { intros t. unfold QuestionType_String.
    destruct (Z.eqb_spec t A); [subst; tauto|].
    destruct (Z.eqb_spec t NS); [subst; tauto|].
    destruct (Z.eqb_spec t CNAME); [subst; tauto|].
    destruct (Z.eqb_spec t MX); [subst; tauto|].
    destruct (Z.eqb_spec t TXT); [subst; tauto|].
    destruct (Z.eqb_spec t AAAA); [subst; tauto|].
    repeat right. split; [|reflexivity]. simpl. intuition congruence. }
  split; [|split].
  - destruct (Hcases qt)
      as [[-> H]|[[-> H]|[[-> H]|[[-> H]|[[-> H]|[[-> H]|[Hn H]]]]]]];
      rewrite H; split; try discriminate; try tauto;
      intros Hn; exfalso; apply Hn; simpl; tauto.
  - intros Hknown Heq.
    destruct (Hcases qt)
      as [[-> H]|[[-> H]|[[-> H]|[[-> H]|[[-> H]|[[-> H]|[Hn H]]]]]]];
      try congruence;
      destruct (Hcases qt')
        as [[-> H']|[[-> H']|[[-> H']|[[-> H']|[[-> H']|[[-> H']|[Hn' H']]]]]]];
      try reflexivity; rewrite H, H' in Heq; discriminate.
  - repeat constructor.
Qed.

Lemma QuestionType_String_names_witness :
  QuestionType_String MX <> "UNKNOWN" /\ MX = 15.
Proof.
  assert (H : QuestionType_String MX <> "UNKNOWN")
    by (vm_compute; discriminate).
  split; [exact H|].
  destruct (QuestionType_String_names MX 15) as (_ & Hinj & _).
  apply Hinj; [exact H | reflexivity].
Defined.

(** ** Requests and the serve loop *)

(** X15.  [ParseRequest] looks at the backing array of its argument, not at its
    length: two slices over the same array give the same result.  With fewer
    than 12 bytes of capacity it panics on [buf[:12]]; with 12 or more it
    returns a request whose [Question] and [Answer] are [nil]. *)
Theorem ParseRequest_ignores_length (a : list byte) (n m : nat) :
  ParseRequest (mkSlice a n) = ParseRequest (mkSlice a m)
  /\ ((length a < 12)%nat ->
      ParseRequest (mkSlice a n) = Panic SliceBoundsOutOfRange)
  /\ ((12 <= length a)%nat ->
      exists h, ParseRequest (mkSlice a n)
                = Ok (mkRequest h nil_interface nil_interface)).
Proof.
  split; [reflexivity|]. split.
  - intros Hlen. now apply ParseRequest_short.
  - intros Hlen.
    destruct (ParseRequest_capacity (mkSlice a n) Hlen) as (h & Hh & _).
    now exists h.
Qed.

Lemma ParseRequest_ignores_length_witness :
  ParseRequest (mkSlice short_datagram 3) = Panic SliceBoundsOutOfRange
  /\ exists h, ParseRequest (mkSlice scenario_datagram 3)
               = Ok (mkRequest h nil_interface nil_interface).
Proof.
  destruct (ParseRequest_ignores_length short_datagram 3 0) as (_ & Hs & _).
  destruct (ParseRequest_ignores_length scenario_datagram 3 0)
    as (_ & _ & Hl).
  split; [apply Hs; vm_compute; lia | apply Hl; vm_compute; lia].
Defined.

(** X16.  [Request.Marshal] writes 512 bytes, of which [ParseRequest] reads the
    header back; the [Question] and the [Answer] of the request are not
    written, and come back [nil]. *)
Theorem ParseRequest_Marshal (m : Request) :
  Header_wf (Request_Header m) ->
  exists bytes,
    Request_Marshal m = Ok bytes
    /\ length bytes = 512%nat
    /\ ParseRequest (full bytes)
       = Ok (mkRequest (Request_Header m) nil_interface nil_interface).
Proof.
  intros Hwf. eexists. split; [apply Request_Marshal_spec|].
  split; [reflexivity|].
  unfold ParseRequest.
  change 0 with (Z.of_nat 0). change 12 with (Z.of_nat 0 + Z.of_nat 12).
  rewrite reslice_ok by (unfold cap, full; cbn [arr]; rewrite length_app;
                         simpl; lia).
  cbn [mbind result_bind full arr].
  unfold Header_Marshal, PutUint16. cbn [app].
  erewrite ParseHeader_bytes by reflexivity.
  destruct Hwf as (Hid & Hflag & Hqd & Han & Hns & Har).
  rewrite !be16_PutUint16 by assumption.
  cbn [mbind result_bind]. now destruct m as [[] ? ?].
Qed.

Lemma ParseRequest_Marshal_witness :
  exists bytes,
    Request_Marshal
      (mkRequest (mkHeader 4660 256 1 0 0 0)
                 (boxed_Question scenario_question) nil_interface)
    = Ok bytes
    /\ length bytes = 512%nat
    /\ ParseRequest (full bytes)
       = Ok (mkRequest (mkHeader 4660 256 1 0 0 0) nil_interface
                       nil_interface).
Proof.
  apply (ParseRequest_Marshal
           (mkRequest (mkHeader 4660 256 1 0 0 0)
                      (boxed_Question scenario_question) nil_interface)).
  repeat split; vm_compute; discriminate.
Defined.

Lemma byte_of_Z_mod (n : Z) : byte_of_Z (n mod 256) = byte_of_Z n.
Proof. unfold byte_of_Z. now rewrite Z.mod_mod. Qed.

Lemma PutUint16_be16 (b0 b1 : byte) : PutUint16 (be16 b0 b1) = [b0; b1].
Proof.
  unfold PutUint16, be16.
  pose proof (byte_val_range b0) as H0. pose proof (byte_val_range b1) as H1.
  rewrite Z.shiftr_div_pow2 by lia. change (2 ^ 8) with 256.
  replace ((byte_val b0 * 256 + byte_val b1) / 256) with (byte_val b0)
    by (apply Z.div_unique with (r := byte_val b1); lia).
  rewrite <- (byte_of_Z_mod (byte_val b0 * 256 + byte_val b1)).
  replace ((byte_val b0 * 256 + byte_val b1) mod 256) with (byte_val b1)
    by (apply Z.mod_unique with (q := byte_val b0); lia).
  now rewrite !byte_of_Z_val.
Qed.

Lemma list_inserts_0_cons (y x : byte) (k l : list byte) :
  list_inserts 0 (y :: k) (x :: l) = y :: list_inserts 0 k l.
Proof. cbn [list_inserts]. now rewrite list_inserts_cons. Qed.

(** X17.  The answer to a datagram of 12 bytes or more is its first 12 bytes with
    the two flag bytes replaced by [0x80 0x00], then 500 zero bytes: the ID
    and the four counts are echoed byte for byte, nothing of the datagram past
    its header is looked at, and nothing that earlier datagrams left in the
    receive buffer gets into the response. *)
Theorem Listen_turn_echoes_header (buf rest : list byte)
    (p0 p1 p2 p3 p4 p5 p6 p7 p8 p9 p10 p11 : byte) :
  length buf = 512%nat ->
  let payload :=
    p0 :: p1 :: p2 :: p3 :: p4 :: p5 :: p6 :: p7 :: p8 :: p9 :: p10 :: p11
       :: rest in
  Listen_turn buf payload
  = Ok (list_inserts 0 payload buf,
        [p0; p1; x80; x00; p4; p5; p6; p7; p8; p9; p10; p11]
          ++ replicate 500 x00).
Proof.
  intros Hbuf payload. unfold Listen_turn, ReadFromUDP.
  set (buf' := list_inserts 0 payload buf).
  assert (Hlen : length buf' = 512%nat)
    by (unfold buf'; now rewrite length_inserts).
  change 0 with (Z.of_nat 0).
  replace (Z.of_nat (length payload) `min` Z.of_nat (length buf))
    with (Z.of_nat 0 + Z.of_nat (Nat.min (length payload) 512)) by lia.
  rewrite reslice_ok by (unfold cap, full; cbn [arr]; lia).
  cbn [mbind result_bind full arr]. change (drop 0 buf') with buf'.
  destruct (twelve_bytes buf) as (c0 & c1 & c2 & c3 & c4 & c5 & c6 & c7 & c8
                                  & c9 & c10 & c11 & tail & ->); [lia|].
  assert (Harr : buf'
                 = p0 :: p1 :: p2 :: p3 :: p4 :: p5 :: p6 :: p7 :: p8 :: p9
                      :: p10 :: p11 :: list_inserts 0 rest tail).
  { unfold buf', payload. now rewrite !list_inserts_0_cons. }
  unfold ParseRequest.
  change (Z.of_nat 0) with 0. change 0 with (Z.of_nat 0).
  change 12 with (Z.of_nat 0 + Z.of_nat 12).
  rewrite reslice_ok by (unfold cap; cbn [arr]; lia).
  cbn [mbind result_bind arr]. change (drop 0 buf') with buf'.
  rewrite (ParseHeader_bytes _ p0 p1 p2 p3 p4 p5 p6 p7 p8 p9 p10 p11
             (list_inserts 0 rest tail)) by exact Harr.
  cbn [mbind result_bind]. rewrite Listen_respond_spec.
  cbn [mbind result_bind snd Request_Header ID QDCount ANCount NSCount
       ARCount].
  unfold Header_Marshal. cbn [ID Flag QDCount ANCount NSCount ARCount].
  rewrite !PutUint16_be16. reflexivity.
Qed.

Lemma Listen_turn_echoes_header_witness :
  Listen_turn (replicate 512 xff) scenario_datagram
  = Ok (list_inserts 0 scenario_datagram (replicate 512 xff),
        [x12; x34; x80; x00; x00; x01; x00; x00; x00; x00; x00; x00]
          ++ replicate 500 x00).
Proof.
  apply (Listen_turn_echoes_header (replicate 512 xff)).
  vm_compute. reflexivity.
Defined.

Lemma Listen_loop_stops (payloads : list (list byte)) (last : turn)
    (after : list turn) :
  last = ReadFails \/ (exists payload, last = Datagram payload false) ->
  forall buf, length buf = 512%nat ->
    Listen_loop buf
      (map (fun payload => Datagram payload true) payloads ++ last :: after)
    = (fst (Listen_loop buf
              (map (fun payload => Datagram payload true) payloads)),
       Returned).
Proof.
  intros Hlast. induction payloads as [|payload payloads IH]; intros buf Hbuf.
  - cbn [map app Listen_loop fst].
    destruct Hlast as [-> | [payload ->]]; [reflexivity|].
    destruct (Listen_turn_ok buf payload Hbuf)
      as (request & header & response & Hturn & _).
    cbn [Listen_loop]. now rewrite Hturn.
  - destruct (Listen_turn_ok buf payload Hbuf)
      as (request & header & response & Hturn & _).
    cbn [map app Listen_loop]. rewrite Hturn.
    rewrite IH by now rewrite length_ReadFromUDP.
    destruct (Listen_loop (fst (ReadFromUDP buf payload))
                (map (fun payload0 => Datagram payload0 true) payloads))
      as [sent st].
    reflexivity.
Qed.

(** X18.  [Listen] returns at the first error of the socket, a failed read or a
    failed write: the datagrams before it were answered, the datagram whose
    response could not be written counts for nothing, and whatever the socket
    would deliver afterwards is not read. *)
Theorem Listen_returns_at_first_error (payloads : list (list byte))
    (last : turn) (after : list turn) :
  last = ReadFails \/ (exists payload, last = Datagram payload false) ->
  Listen (map (fun payload => Datagram payload true) payloads
            ++ last :: after)
  = (fst (Listen (map (fun payload => Datagram payload true) payloads)),
     Returned).
Proof.
  intros Hlast. unfold Listen. apply Listen_loop_stops; [exact Hlast|].
  unfold make. now rewrite length_replicate.
Qed.

Lemma Listen_returns_at_first_error_witness :
  Listen ([Datagram scenario_datagram true]
            ++ Datagram short_datagram false
            :: [Datagram scenario_datagram true])
  = (fst (Listen [Datagram scenario_datagram true]), Returned).
Proof.
  apply (Listen_returns_at_first_error [scenario_datagram]
           (Datagram short_datagram false) [Datagram scenario_datagram true]).
  right. now exists short_datagram.
Defined.

(** * Pointers, reserved lengths and the serve loop, in full *)

(** ** C5: a pointer to a name that ends *)

Lemma pointer_chain_decodes (buf : slice) (off : Z) (name : string)
    (newOffset : Z) (turns : nat) :
  pointer_chain buf off name newOffset turns ->
  ParseDomainName turns buf off = Ok (name, newOffset).
Proof.
  induction 1 as [pre post ls Harr Hlen Hall
                 |pre post ls b1 b2 name newOffset turns Harr Hlen Hall Hptr
                    _ IH].
  - unfold ParseDomainName.
    now rewrite (ParseDomainName_loop_wire ls 0 buf pre post []).
  - now apply (ParseDomainName_pointer turns buf pre post ls b1 b2 name
                 newOffset).
Qed.

Lemma ParseDomainName_fuel_mono (fuel fuel' : nat) (buf : slice) (off : Z)
    (r : string * Z) :
  ParseDomainName fuel buf off = Ok r ->
  (fuel <= fuel')%nat ->
  ParseDomainName fuel' buf off = Ok r.
Proof.
  unfold ParseDomainName. intros H Hle.
  rewrite (ParseDomainName_loop_fuel_mono fuel); [exact H| |exact Hle].
  rewrite H. discriminate.
Qed.

(** C5, as the code has it.  Where [ParseDomainName], started at the offset
    [length pre] of a buffer, has read the labels [ls] and meets a byte [b1]
    of value 192 or more, followed by [b2], and the name at the 14-bit offset
    made of the low 6 bits of [b1] and the 8 bits of [b2] ends (it is spelled
    out to its terminator, or ends in a pointer to a name that ends, over any
    number of pointers): the call returns, for every amount of fuel that
    covers the turns of the loop, the labels joined by dots, a dot and the
    pointed-to name (the pointed-to name alone when [ls] is empty), and the
    offset just after the two bytes of the pointer, whatever the offset
    [pointerEnd] that ends the pointed-to name. *)
Theorem ParseDomainName_pointer_chain (fuel : nat) (buf : slice)
    (pre post : list byte) (ls : list string) (b1 b2 : byte)
    (pointerName : string) (pointerEnd : Z) (turns : nat) :
  arr buf = pre ++ encode_labels ls ++ b1 :: b2 :: post ->
  (length pre + length (encode_labels ls) + 2 <= len buf)%nat ->
  Forall ordinary_label ls ->
  192 <= byte_val b1 ->
  pointer_chain buf (pointer_target b1 b2) pointerName pointerEnd turns ->
  (length ls + S turns <= fuel)%nat ->
  ParseDomainName fuel buf (Z.of_nat (length pre))
  = Ok (pointer_join ls pointerName,
        Z.of_nat (length pre) + Z.of_nat (length (encode_labels ls)) + 2).
Proof.
  intros Harr Hlen Hall Hptr Hchain Hfuel.
  apply (ParseDomainName_fuel_mono (length ls + S turns)); [|exact Hfuel].
  apply pointer_chain_decodes.
  now apply (chain_pointer buf pre post ls b1 b2 pointerName pointerEnd turns).
Qed.

(** The examples: in [compressed_message] the pointer [(0xC0, 0x00)] at
    offset 13 gives ["example.com"] and offset 15; ["www"] and a pointer to
    that pointer, at offset 15, gives ["www.example.com"] and offset 21; the
    pointer at offset 21, through three pointers, gives the same name and
    offset 23. *)
Lemma ParseDomainName_pointer_chain_witness :
  ParseDomainName 4 compressed_message 13 = Ok ("example.com", 15)
  /\ ParseDomainName 6 compressed_message 15 = Ok ("www.example.com", 21)
  /\ ParseDomainName 7 compressed_message 21 = Ok ("www.example.com", 23).
Proof.
  assert (C0 : pointer_chain compressed_message 0 "example.com" 13 3).
  { apply (chain_end compressed_message []
             ([xc0; x00] ++ www ++ [xc0; x0d] ++ [xc0; x0f])%byte
             ["example"; "com"]).
    - reflexivity.
    - vm_compute. lia.
    - repeat constructor; vm_compute; discriminate. }
  assert (C13 : pointer_chain compressed_message 13 "example.com" 15 4).
  { apply (chain_pointer compressed_message example_com
             (www ++ [xc0; x0d] ++ [xc0; x0f])%byte [] xc0 x00
             "example.com" 13 3).
    - reflexivity.
    - vm_compute. lia.
    - constructor.
    - vm_compute. discriminate.
    - exact C0. }
  assert (C15 : pointer_chain compressed_message 15 "www.example.com" 21 6).
  { apply (chain_pointer compressed_message
             (example_com ++ [xc0; x00])%byte [xc0; x0f]%byte ["www"]
             xc0 x0d "example.com" 15 4).
    - reflexivity.
    - vm_compute. lia.
    - repeat constructor; vm_compute; discriminate.
    - vm_compute. discriminate.
    - exact C13. }
  split; [|split].
  - apply (ParseDomainName_pointer_chain 4 compressed_message example_com
             (www ++ [xc0; x0d] ++ [xc0; x0f])%byte [] xc0 x00
             "example.com" 13 3).
    + reflexivity.
    + vm_compute. lia.
    + constructor.
    + vm_compute. discriminate.
    + exact C0.
    + vm_compute. lia.
  - apply (ParseDomainName_pointer_chain 6 compressed_message
             (example_com ++ [xc0; x00])%byte [xc0; x0f]%byte ["www"]
             xc0 x0d "example.com" 15 4).
    + reflexivity.
    + vm_compute. lia.
    + repeat constructor; vm_compute; discriminate.
    + vm_compute. discriminate.
    + exact C13.
    + vm_compute. lia.
  - apply (ParseDomainName_pointer_chain 7 compressed_message
             (example_com ++ [xc0; x00] ++ www ++ [xc0; x0d])%byte [] []
             xc0 x0f "www.example.com" 21 6).
    + reflexivity.
    + vm_compute. lia.
    + constructor.
    + vm_compute. discriminate.
    + exact C15.
    + vm_compute. lia.
Defined.

Lemma ParseDomainName_pointer_cycle_diverges (fuel : nat) :
  ParseDomainName fuel pointer_cycle 0 = Diverge
  /\ ParseDomainName fuel pointer_cycle 2 = Diverge.
Proof.
  induction fuel as [|fuel [IH0 IH2]]; [split; reflexivity|].
  unfold ParseDomainName in *. split.
  - rewrite (ParseDomainName_loop_pointer fuel pointer_cycle 0 [] xc0 x02);
      [|reflexivity|vm_compute; discriminate|reflexivity].
    change (pointer_target xc0 x02) with 2.
    unfold ParseDomainName. now rewrite IH2.
  - rewrite (ParseDomainName_loop_pointer fuel pointer_cycle 2 [] xc0 x00);
      [|reflexivity|vm_compute; discriminate|reflexivity].
    change (pointer_target xc0 x00) with 0.
    unfold ParseDomainName. now rewrite IH0.
Qed.

(** Not every pointer is answered.  In [pointer_cycle] the decoding meets at
    offset 0 a byte of value 192, followed by a byte, in a chain of two
    pointers, and forms the offset 2; yet no amount of fuel gives a name. *)
Lemma ParseDomainName_pointer_cycle_never_returns :
  index pointer_cycle 0 = Ok xc0
  /\ 192 <= byte_val xc0
  /\ index pointer_cycle 1 = Ok x02
  /\ pointer_target xc0 x02 = 2
  /\ ~ exists fuel r, ParseDomainName fuel pointer_cycle 0 = Ok r.
Proof.
  split; [reflexivity|]. split; [vm_compute; discriminate|].
  split; [reflexivity|]. split; [reflexivity|].
  intros (fuel & r & H).
  destruct (ParseDomainName_pointer_cycle_diverges fuel) as [H0 _].
  rewrite H0 in H. discriminate.
Qed.

(** ** C6: what every datagram is answered with *)

(** One turn of the loop, on any datagram: the request is parsed from the
    receive buffer after the read, its [Question] is [nil], and the response
    is the header echo of that buffer. *)
Lemma Listen_turn_header_echo (buf payload : list byte) :
  length buf = 512%nat ->
  let buf' := list_inserts 0 payload buf in
  (exists h,
      ParseRequest (mkSlice buf' (Nat.min (length payload) 512))
      = Ok (mkRequest h nil_interface nil_interface))
  /\ Listen_turn buf payload = Ok (buf', header_echo buf').
Proof.
  intros Hbuf buf'.
  assert (Hlen : length buf' = 512%nat)
    by (unfold buf'; now rewrite length_inserts).
  destruct (twelve_bytes buf') as (b0 & b1 & b2 & b3 & b4 & b5 & b6 & b7 & b8
                                   & b9 & b10 & b11 & tail & Harr); [lia|].
  assert (Hparse : ParseRequest (mkSlice buf' (Nat.min (length payload) 512))
                   = Ok (mkRequest
                           (mkHeader (be16 b0 b1) (be16 b2 b3) (be16 b4 b5)
                                     (be16 b6 b7) (be16 b8 b9) (be16 b10 b11))
                           nil_interface nil_interface)).
  { unfold ParseRequest.
    change 0 with (Z.of_nat 0). change 12 with (Z.of_nat 0 + Z.of_nat 12).
    rewrite reslice_ok by (unfold cap; cbn [arr]; lia).
    cbn [mbind result_bind arr]. change (drop 0 buf') with buf'.
    now rewrite (ParseHeader_bytes _ b0 b1 b2 b3 b4 b5 b6 b7 b8 b9 b10 b11
                   tail) by exact Harr. }
  split; [eexists; exact Hparse|].
  unfold Listen_turn, ReadFromUDP. fold buf'.
  change 0 with (Z.of_nat 0).
  replace (Z.of_nat (length payload) `min` Z.of_nat (length buf))
    with (Z.of_nat 0 + Z.of_nat (Nat.min (length payload) 512)) by lia.
  rewrite reslice_ok by (unfold cap, full; cbn [arr]; lia).
  cbn [mbind result_bind full arr]. change (drop 0 buf') with buf'.
  rewrite Hparse. cbn [mbind result_bind]. rewrite Listen_respond_spec.
  cbn [mbind result_bind snd Request_Header ID QDCount ANCount NSCount
       ARCount].
  unfold Header_Marshal. cbn [ID Flag QDCount ANCount NSCount ARCount].
  rewrite !PutUint16_be16. unfold header_echo. rewrite Harr. reflexivity.
Qed.

Lemma Listen_loop_answers_all (payloads : list (list byte)) :
  forall buf, length buf = 512%nat ->
    Listen_loop buf (map (fun payload => Datagram payload true) payloads)
    = (answers buf payloads, Serving).
Proof.
  induction payloads as [|payload payloads IH]; intros buf Hbuf;
    [reflexivity|].
  destruct (Listen_turn_header_echo buf payload Hbuf) as [_ Hturn].
  cbn zeta in Hturn. cbn [map Listen_loop answers]. rewrite Hturn.
  now rewrite IH by now rewrite length_inserts.
Qed.

Lemma length_answers (payloads : list (list byte)) :
  forall buf, length (answers buf payloads) = length payloads.
Proof.
  induction payloads as [|payload payloads IH]; intros buf; [reflexivity|].
  cbn [answers length]. now rewrite IH.
Qed.

(** C6, as the code has it.  Whatever the socket does and whatever datagrams
    arrive, of any length and contents, no turn of the loop of [Listen]
    panics or hangs: the run is still serving, or has returned the error of
    the socket.  In a turn, the request is parsed from the 512 bytes of the
    receive buffer after the read, of which a datagram shorter than 12 bytes
    leaves the rest as earlier datagrams left it; its question is not decoded
    and stays [nil]; and the response is the header echo of that buffer: its
    bytes 0, 1 and 4 to 11, the flags [0x80 0x00] and 500 zero bytes.  While
    the socket reads and writes without error, each datagram is answered so,
    none is dropped, and the loop is still serving after the last. *)
Theorem Listen_answers_every_datagram :
  (forall turns,
      snd (Listen turns) = Serving \/ snd (Listen turns) = Returned)
  /\ (forall buf payload,
        length buf = 512%nat ->
        let buf' := list_inserts 0 payload buf in
        (exists h,
            ParseRequest (mkSlice buf' (Nat.min (length payload) 512))
            = Ok (mkRequest h nil_interface nil_interface))
        /\ Listen_turn buf payload = Ok (buf', header_echo buf'))
  /\ (forall payloads,
        Listen (map (fun payload => Datagram payload true) payloads)
        = (answers (make 512) payloads, Serving)
        /\ length (answers (make 512) payloads) = length payloads
        /\ Forall (fun response => length response = 512%nat)
                  (answers (make 512) payloads)).
Proof.
  assert (Hbuf : length (make 512) = 512%nat)
    by (unfold make; now rewrite length_replicate).
  split; [|split].
  - intros turns. unfold Listen. now apply Listen_loop_never_crashes.
  - exact Listen_turn_header_echo.
  - intros payloads.
    assert (H : Listen (map (fun payload => Datagram payload true) payloads)
                = (answers (make 512) payloads, Serving))
      by (unfold Listen; now apply Listen_loop_answers_all).
    split; [exact H|]. split; [apply length_answers|].
    pose proof (Listen_loop_never_crashes
                  (map (fun payload => Datagram payload true) payloads)
                  (make 512) Hbuf) as [_ Hall].
    unfold Listen in H. now rewrite H in Hall.
Qed.

Lemma Listen_answers_every_datagram_witness :
  Listen_turn (fst (ReadFromUDP (make 512) scenario_datagram)) [xab]
  = Ok (list_inserts 0 [xab] (list_inserts 0 scenario_datagram (make 512)),
        [xab; x34; x80; x00; x00; x01] ++ replicate 506 x00).
Proof.
  destruct Listen_answers_every_datagram as (_ & Hturn & _).
  destruct (Hturn (fst (ReadFromUDP (make 512) scenario_datagram)) [xab]
              ltac:(vm_compute; reflexivity)) as [_ H].
  exact H.
Defined.

(** ** C9: decoding after encoding, for every string *)

(** A label of 256 bytes is encoded, and its encoding does not decode to the
    name: the length byte has wrapped to 0. *)
Lemma ParseDomainName_EncodeDomainName_not_normalize :
  exists wire,
    EncodeDomainName (repeat_char "a" 256) = Ok wire
    /\ ParseDomainName 2 (full wire) 0 = Ok ("", 1)
    /\ normalize (repeat_char "a" 256) = repeat_char "a" 256
    /\ ~ exists fuel,
           ParseDomainName fuel (full wire) 0
           = Ok (normalize (repeat_char "a" 256), Z.of_nat (length wire)).
Proof.
  eexists. split; [vm_compute; reflexivity|].
  split; [vm_compute; reflexivity|]. split; [vm_compute; reflexivity|].
  intros [[|fuel] H]; [discriminate|].
  change (ParseDomainName (S fuel) _ 0) with (@Ok (string * Z) ("", 1)) in H.
  discriminate.
Qed.

(** ** C10: length bytes from 64 to 191 *)

(** Every value of the first byte is accepted in some buffer. *)
Lemma accepting_buffer_decodes (b : byte) :
  index (accepting_buffer b) 0 = Ok b
  /\ exists r, ParseDomainName 2 (accepting_buffer b) 0 = Ok r.
Proof.
  pose proof (byte_val_range b) as Hb. unfold accepting_buffer.
  destruct (Z.eqb_spec (byte_val b) 0) as [H0 | H0].
  - split; [reflexivity|]. unfold ParseDomainName.
    rewrite ParseDomainName_loop_step.
    change (index (full [b]) 0) with (@Ok byte b).
    cbn [mbind result_bind]. rewrite H0. cbn. eauto.
  - destruct (Z.leb_spec 192 (byte_val b)) as [Hptr | Hlab].
    + set (T := pointer_target b x02).
      assert (HT : 2 <= T).
      { unfold T, pointer_target. change (byte_val x02) with 2.
        pose proof (Z.mod_pos_bound (byte_val b) 64). lia. }
      set (buf := full (b :: x02 :: replicate (Z.to_nat T - 1) x00)).
      split; [reflexivity|]. unfold ParseDomainName.
      rewrite (ParseDomainName_loop_pointer 1 buf 0 [] b x02);
        [|reflexivity|exact Hptr
         |apply (index_ok buf 1 x02);
          [unfold buf, full; cbn [len length]; lia | reflexivity]].
      fold T. unfold ParseDomainName. rewrite ParseDomainName_loop_step.
      assert (Hidx : index buf T = Ok x00).
      { rewrite <- (Z2Nat.id T) by lia. apply index_ok.
        - unfold buf, full. cbn [len length]. rewrite length_replicate. lia.
        - unfold buf, full. cbn [arr].
          replace (Z.to_nat T) with (S (S (Z.to_nat T - 2))) at 1 by lia.
          cbn [lookup list_lookup]. apply lookup_replicate_2. lia. }
      rewrite Hidx. cbn [mbind result_bind].
      change (byte_val x00 =? 0) with true. cbn iota.
      cbn [mbind result_bind]. eauto.
    + set (n := Z.to_nat (byte_val b)).
      set (buf := full (b :: replicate n x00 ++ [x00])).
      assert (Hn : byte_val b = Z.of_nat n) by (unfold n; lia).
      split; [reflexivity|]. unfold ParseDomainName.
      rewrite (ParseDomainName_reserved_or_short_label 1 buf 0 [] b
                 (mkSlice (drop 1 (arr buf)) n));
        [|reflexivity|lia
         |rewrite Hn; change (0 + 1) with (Z.of_nat 1);
          apply reslice_ok; unfold cap, buf, full; cbn [arr length];
          rewrite length_app, length_replicate; simpl; lia].
      rewrite ParseDomainName_loop_step.
      assert (Hidx : index buf (0 + 1 + byte_val b) = Ok x00).
      { replace (0 + 1 + byte_val b) with (Z.of_nat (S n)) by lia.
        apply index_ok.
        - unfold buf, full. cbn [len length].
          rewrite length_app, length_replicate. simpl. lia.
        - unfold buf, full. cbn [arr lookup list_lookup].
          apply list_lookup_middle. now rewrite length_replicate. }
      rewrite Hidx. cbn [mbind result_bind].
      change (byte_val x00 =? 0) with true. cbn iota. eauto.
Qed.

(** C10.  A length-indicator byte of value 64 to 191 is read as the length of
    a label.  In a name, a label of 64 to 191 bytes among labels of 1 to 191
    bytes, up to the terminator, is returned as one of the labels of the
    name, and the loop goes on after it to the others.  At every buffer and
    offset with such a byte, the turn of the loop is the slice of that many
    bytes and the loop after it; the only other end of the turn is the slice
    running out of the capacity of the buffer.  Values of 192 and more
    alone are pointers, and no value is refused: for each value of the byte
    there is a buffer that starts with it and in which a name is returned. *)
Theorem ParseDomainName_reserved_length_is_label :
  (forall (buf : slice) (pre post : list byte) (before after : list string)
          (label : string) (fuel : nat),
      arr buf
      = pre ++ (encode_labels (before ++ label :: after) ++ [x00]) ++ post ->
      (length pre + length (encode_labels (before ++ label :: after))
       < len buf)%nat ->
      Forall ordinary_label before ->
      64 <= strlen label <= 191 ->
      Forall ordinary_label after ->
      (length before + length after + 1 < fuel)%nat ->
      ParseDomainName fuel buf (Z.of_nat (length pre))
      = Ok (Join (before ++ label :: after) ".",
            Z.of_nat (length pre)
            + Z.of_nat (length (encode_labels (before ++ label :: after)))
            + 1))
  /\ (forall (fuel : nat) (buf : slice) (off : Z) (labels : list string)
             (b : byte),
        index buf off = Ok b ->
        64 <= byte_val b <= 191 ->
        ParseDomainName_loop (S fuel) buf off labels
        = (s ← reslice buf (off + 1) (off + 1 + byte_val b);
           ParseDomainName_loop fuel buf (off + 1 + byte_val b)
             (labels ++ [String.string_of_list_byte (bytes_of s)])))
  /\ (forall b : byte,
        index (accepting_buffer b) 0 = Ok b
        /\ exists r, ParseDomainName 2 (accepting_buffer b) 0 = Ok r).
Proof.
  split; [|split].
  - intros buf pre post before after label fuel Harr Hlen Hbefore Hlabel
           Hafter Hfuel.
    assert (Hall : Forall ordinary_label (before ++ label :: after)).
    { apply Forall_app. split; [exact Hbefore|].
      constructor; [unfold ordinary_label; lia | exact Hafter]. }
    unfold ParseDomainName.
    replace fuel
      with (length (before ++ label :: after)
            + S (fuel - S (length (before ++ label :: after))))%nat
      by (rewrite length_app in *; simpl in *; lia).
    now rewrite (ParseDomainName_loop_wire _ _ buf pre post []).
  - intros fuel buf off labels b Hb Hrange.
    rewrite ParseDomainName_loop_step, Hb. cbn [mbind result_bind].
    destruct (Z.eqb_spec (byte_val b) 0); [lia|].
    destruct (Z.leb_spec 192 (byte_val b)); [lia|]. reflexivity.
  - exact accepting_buffer_decodes.
Qed.

Lemma ParseDomainName_reserved_length_is_label_witness :
  ParseDomainName 4
    (full (scenario_header
             ++ (encode_labels (["www"] ++ label64 :: ["com"]) ++ [x00])
             ++ [x00; x01; x00; x01]))
    12
  = Ok (Join (["www"] ++ label64 :: ["com"]) ".", 12 + 73 + 1).
Proof.
  destruct ParseDomainName_reserved_length_is_label as (Hname & _ & _).
  apply (Hname _ scenario_header [x00; x01; x00; x01] ["www"] ["com"]
           label64 4%nat).
  - reflexivity.
  - vm_compute. lia.
  - repeat constructor; vm_compute; discriminate.
  - vm_compute. split; discriminate.
  - repeat constructor; vm_compute; discriminate.
  - vm_compute. lia.
Defined.
